(** * agent-control.py: lease-and-execute lifecycle of a CI test machine

    A shallow embedding of the class [AgentControl] and of the script body
    ([__main__]) of [src/agent-control.py], followed by the properties of
    the allocation retry loop, the remote command wrapper, the reboot
    coordinator, the guaranteed-release path and the destructor.

    Modelling conventions.
    - Python values that come out of [json.loads] are values of [json];
      Python's [None] is [JNull].  JSON numbers are kept as integers: the
      script never computes with them.
    - [json.loads] is library code; it is the [json_loads] field of the
      [world], [None] standing for the [ValueError] it raises.
    - Effects are recorded in a [trace] of [event]s kept in the state: HTTP
      requests, spawned processes, sleeps, [signal.signal] calls, what the
      signal handler prints, and the log records of level WARNING and
      above.  [logging.info] records are not part of the trace.
    - The outside world is an oracle: the body of the n-th HTTP response,
      the exit code of the n-th spawned process, and the termination signal
      that the process acts on at its n-th delivery point, if any.  The
      process acts on a signal according to the disposition of that moment:
      it dies (default), nothing happens (ignored), or [handle_signal] runs
      and raises [SignalException].  The interpreter runs the handler for
      one signal at a time, so signals that arrive together are acted on at
      successive delivery points.
    - Delivery points.  The interpreter runs [handle_signal] between two
      instructions, so an exception can come out of any statement.  Every
      blocking operation (request, process, sleep) is a delivery point.  In
      the script body, from the installation of the handlers on, there is
      one more in front of every statement whose effect is not a blocking
      operation (lines 391, 403, 450, 453, 463, 464, 469, 470 and 479) and
      one at the end of the [try] block.  A handler that runs anywhere else
      (inside a method, or in front of a statement that starts with a
      blocking operation) is taken to run during the next blocking
      operation, that is, as if the signal had come a moment later, when
      the request is sent, the process spawned or the sleep begun.  Before
      the handlers are installed (lines 385 and 386) a signal ends the
      process before it has done anything; such runs are not modelled.
    - Exceptions are values of [exn]; a computation ends with a value, with
      an exception, or with the death of the process, and the state is kept
      in all three cases.
    - An unbound Python variable is [None] in an [option]; [jroot] and [rc]
      are threaded through their loops, the variables of the script body
      that the [finally] block reads are fields of the state.
    - The methods take the host name as a string, as their docstrings say;
      the script, which gets it from the pool's JSON, meets the
      [TypeError] of a non-string host at its first remote command. *)

From stdpp Require Import base gmap strings list.
From Stdlib Require Import ZArith Lia DecimalString.

#[local] Set Warnings "-register-all".
#[local] Open Scope string_scope.
#[local] Open Scope list_scope.
#[local] Open Scope Z_scope.

(** ** Values *)

Inductive json :=
| JNull
| JBool (b : bool)
| JNum (z : Z)
| JStr (s : string)
| JArr (l : list json)
| JObj (m : gmap string json).

(** [x == "needle"] for a decoded JSON value [x]. *)
Definition json_eq_str (needle : string) (x : json) : bool :=
  match x with
  | JStr s => String.eqb s needle
  | _ => false
  end.

(** [needle in s] on strings. *)
Fixpoint substring_of (needle s : string) : bool :=
  if String.prefix needle s then true
  else match s with
       | EmptyString => false
       | String _ s' => substring_of needle s'
       end.

(** [str(n)] for an integer. *)
Definition str_of_Z (z : Z) : string := NilZero.string_of_int (Z.to_int z).

(** ** Exceptions, signals and events *)

Inductive exn :=
| ValueError
| TypeError
| KeyError
| IndexError
| UnboundLocalError (name : string)
| NameError (name : string)
| SignalException
| SystemExit (code : Z)
| Exception (msg : string).

(** [except Exception] catches everything but [SystemExit]. *)
Definition is_Exception (e : exn) : bool :=
  match e with
  | SystemExit _ => false
  | _ => true
  end.

Definition is_SignalException (e : exn) : bool :=
  match e with
  | SignalException => true
  | _ => false
  end.

Inductive signum := SIGTERM | SIGHUP.

Definition signum_number (sg : signum) : Z :=
  match sg with
  | SIGTERM => 15
  | SIGHUP => 1
  end.

Inductive disposition := SIG_DFL | SIG_IGN | Handler.

Inductive level := WARNING | ERROR | CRITICAL.

Inductive event :=
| EHttp (url : string) (payload : gmap string json)
| EExec (argv : list string)
| ESleep (secs : Z)
| ESignal (sg : signum) (d : disposition)
| ELog (lvl : level) (msg : string)
| EPrint (msg : string)
| EMkdtemp (dir : string).

(** ** The outside world *)

Record world := mkWorld {
  json_loads : string -> option json;
  http : nat -> string;
  proc : nat -> Z;
  sigs : nat -> option signum;
  duffy_key : string;
  index_script_isfile : bool;
  mkdtemp : string
}.

(** ** Program state *)

Record st := mkSt {
  trace : list event;
  n_http : nat;
  n_proc : nat;
  n_block : nat;
  on_sigterm : disposition;
  on_sighup : disposition;
  (* attributes of the AgentControl instance *)
  artifacts_storage : option string;
  _node : gmap string json;
  _reboot_count : Z;
  (* variables of the script body *)
  v_node : option json;
  v_ssid : option json;
  v_artifacts_dir : option string;
  v_rc : Z
}.

Definition emit (e : event) (s : st) : st :=
  mkSt (trace s ++ [e]) (n_http s) (n_proc s) (n_block s)
       (on_sigterm s) (on_sighup s)
       (artifacts_storage s) (_node s) (_reboot_count s)
       (v_node s) (v_ssid s) (v_artifacts_dir s) (v_rc s).

Definition next_http (s : st) : st :=
  mkSt (trace s) (S (n_http s)) (n_proc s) (n_block s)
       (on_sigterm s) (on_sighup s)
       (artifacts_storage s) (_node s) (_reboot_count s)
       (v_node s) (v_ssid s) (v_artifacts_dir s) (v_rc s).

Definition next_proc (s : st) : st :=
  mkSt (trace s) (n_http s) (S (n_proc s)) (n_block s)
       (on_sigterm s) (on_sighup s)
       (artifacts_storage s) (_node s) (_reboot_count s)
       (v_node s) (v_ssid s) (v_artifacts_dir s) (v_rc s).

Definition next_block (s : st) : st :=
  mkSt (trace s) (n_http s) (n_proc s) (S (n_block s))
       (on_sigterm s) (on_sighup s)
       (artifacts_storage s) (_node s) (_reboot_count s)
       (v_node s) (v_ssid s) (v_artifacts_dir s) (v_rc s).

Definition set_disposition (sg : signum) (d : disposition) (s : st) : st :=
  mkSt (trace s) (n_http s) (n_proc s) (n_block s)
       (match sg with SIGTERM => d | SIGHUP => on_sigterm s end)
       (match sg with SIGHUP => d | SIGTERM => on_sighup s end)
       (artifacts_storage s) (_node s) (_reboot_count s)
       (v_node s) (v_ssid s) (v_artifacts_dir s) (v_rc s).

Definition set_artifacts_storage (a : option string) (s : st) : st :=
  mkSt (trace s) (n_http s) (n_proc s) (n_block s)
       (on_sigterm s) (on_sighup s)
       a (_node s) (_reboot_count s)
       (v_node s) (v_ssid s) (v_artifacts_dir s) (v_rc s).

Definition set_v_lease (node ssid : json) (s : st) : st :=
  mkSt (trace s) (n_http s) (n_proc s) (n_block s)
       (on_sigterm s) (on_sighup s)
       (artifacts_storage s) (_node s) (_reboot_count s)
       (Some node) (Some ssid) (v_artifacts_dir s) (v_rc s).

Definition set_v_artifacts_dir (d : string) (s : st) : st :=
  mkSt (trace s) (n_http s) (n_proc s) (n_block s)
       (on_sigterm s) (on_sighup s)
       (artifacts_storage s) (_node s) (_reboot_count s)
       (v_node s) (v_ssid s) (Some d) (v_rc s).

Definition set_v_rc (rc : Z) (s : st) : st :=
  mkSt (trace s) (n_http s) (n_proc s) (n_block s)
       (on_sigterm s) (on_sighup s)
       (artifacts_storage s) (_node s) (_reboot_count s)
       (v_node s) (v_ssid s) (v_artifacts_dir s) rc.

Definition disposition_of (s : st) (sg : signum) : disposition :=
  match sg with
  | SIGTERM => on_sigterm s
  | SIGHUP => on_sighup s
  end.

(** ** The monad: state, exceptions, and death by signal *)

Inductive res (A : Type) :=
| Ret (a : A)
| Exc (e : exn)
| Killed (sg : signum).
Arguments Ret {A} a.
Arguments Exc {A} e.
Arguments Killed {A} sg.

Definition M (A : Type) : Type := st -> res A * st.

Definition ret {A} (a : A) : M A := fun s => (Ret a, s).

Definition bind {A B} (m : M A) (f : A -> M B) : M B :=
  fun s =>
    match m s with
    | (Ret a, s') => f a s'
    | (Exc e, s') => (Exc e, s')
    | (Killed sg, s') => (Killed sg, s')
    end.

Definition raise {A} (e : exn) : M A := fun s => (Exc e, s).

Definition modify (f : st -> st) : M unit := fun s => (Ret tt, f s).

(** [try: body except <handles>: handler]. *)
Definition try_except {A} (body : M A) (handles : exn -> bool)
                      (handler : exn -> M A) : M A :=
  fun s =>
    match body s with
    | (Exc e, s') => if handles e then handler e s' else (Exc e, s')
    | r => r
    end.

(** [try: body finally: cleanup].  The cleanup runs after a normal end and
    after an exception (which is re-raised afterwards, unless the cleanup
    raises itself); it does not run in a process that a signal has killed. *)
Definition try_finally {A} (body : M A) (cleanup : M unit) : M A :=
  fun s =>
    match body s with
    | (Ret a, s') =>
        match cleanup s' with
        | (Ret _, s'') => (Ret a, s'')
        | (Exc e, s'') => (Exc e, s'')
        | (Killed sg, s'') => (Killed sg, s'')
        end
    | (Exc e, s') =>
        match cleanup s' with
        | (Ret _, s'') => (Exc e, s'')
        | (Exc e', s'') => (Exc e', s'')
        | (Killed sg, s'') => (Killed sg, s'')
        end
    | (Killed sg, s') => (Killed sg, s')
    end.

Declare Scope py_scope.
Delimit Scope py_scope with py.
Notation "x <- c1 ;; c2" := (bind c1 (fun x => c2))
  (at level 100, c1 at next level, right associativity) : py_scope.
Notation "c1 ;; c2" := (bind c1 (fun _ => c2))
  (at level 100, right associativity) : py_scope.
#[local] Open Scope py_scope.

Definition log (lvl : level) (msg : string) : M unit := modify (emit (ELog lvl msg)).

Definition get {A} (f : st -> A) : M A := fun s => (Ret (f s), s).

(** Reading a variable that may be unbound. *)
Definition read_var {A} (unbound : exn) (v : option A) : M A :=
  match v with
  | Some a => ret a
  | None => raise unbound
  end.

(** ** Python operators on decoded JSON *)

(** [needle in j]. *)
Definition py_contains (needle : string) (j : json) : M bool :=
  match j with
  | JObj m => ret (bool_decide (is_Some (m !! needle)))
  | JArr l => ret (existsb (json_eq_str needle) l)
  | JStr s => ret (substring_of needle s)
  | JNull | JBool _ | JNum _ => raise TypeError
  end.

(** [j[key]] for a string key. *)
Definition py_getitem_str (j : json) (key : string) : M json :=
  match j with
  | JObj m => match m !! key with
              | Some v => ret v
              | None => raise KeyError
              end
  | _ => raise TypeError
  end.

(** [j[i]] for an integer index [i >= 0].  The keys of a decoded JSON
    object are strings, so an integer key is never found. *)
Definition py_getitem_int (j : json) (i : nat) : M json :=
  match j with
  | JArr l => match l !! i with
              | Some v => ret v
              | None => raise IndexError
              end
  | JStr s => match String.get i s with
              | Some c => ret (JStr (String c EmptyString))
              | None => raise IndexError
              end
  | JObj _ => raise KeyError
  | JNull | JBool _ | JNum _ => raise TypeError
  end.

(** [for x in j]: the items the loop visits.  A dict yields its keys (in
    the order of [map_to_list]; Python 2 fixes no order). *)
Definition py_iter (j : json) : M (list json) :=
  match j with
  | JArr l => ret l
  | JStr s => ret ((fun c => JStr (String c EmptyString)) <$> String.list_ascii_of_string s)
  | JObj m => ret ((fun kv => JStr kv.1) <$> map_to_list m)
  | JNull | JBool _ | JNum _ => raise TypeError
  end.

(** [if x:] for an optional string argument. *)
Definition truthy (o : option string) : bool :=
  match o with
  | Some s => negb (String.eqb s "")
  | None => false
  end.

(** ** Constants of the script *)

Definition API_BASE : string := "http://admin.ci.centos.org:8080".
Definition DUFFY_KEY_FILE : string := "/home/systemd/duffy.key".
Definition GITHUB_BASE : string := "https://github.com/systemd/".
Definition GITHUB_CI_REPO : string := "systemd-centos-ci".

Module Args.
Record t := mk {
  arch : string;
  branch : option string;
  ci_pr : option string;
  free_all_nodes : bool;
  free_session : option string;
  keep : bool;
  list_nodes : bool;
  no_index : bool;
  pr : option string;
  rhel : option Z;
  vagrant : option string;
  vagrant_sync : bool;
  version : string
}.
End Args.

Section AgentControl.

Variable w : world.

(** *** Signals and delivery points *)

(** [handle_signal(signum, frame)]. *)
Definition handle_signal (sg : signum) : M unit :=
  modify (emit (EPrint ("handle_signal: got signal " +:+ str_of_Z (signum_number sg)))) ;;
  raise SignalException.

(** What the process does with the signal that is due at a delivery
    point, by the disposition of that signal. *)
Definition deliver (due : option signum) : M unit :=
  match due with
  | None => ret tt
  | Some sg =>
      fun s =>
        match disposition_of s sg with
        | SIG_IGN => (Ret tt, s)
        | SIG_DFL => (Killed sg, s)
        | Handler => handle_signal sg s
        end
  end.

(** The delivery point of a blocking operation. *)
Definition blocking : M unit :=
  fun s => deliver (sigs w (n_block s)) (next_block s).

(** The delivery point in front of a statement of the script body. *)
Definition checkpoint : M unit := blocking.

(** [time.sleep(secs)]. *)
Definition time_sleep (secs : Z) : M unit :=
  modify (emit (ESleep secs)) ;; blocking.

(** [requests.get(url, payload).text]. *)
Definition requests_get (url : string) (payload : gmap string json) : M string :=
  n <- get n_http ;;
  modify (emit (EHttp url payload)) ;;
  modify next_http ;;
  blocking ;;
  ret (http w n).

(** [signal.signal(sg, d)].  The call itself is not interrupted: where the
    handler can run just before it, the script has a [checkpoint] in
    front of it. *)
Definition signal_signal (sg : signum) (d : disposition) : M unit :=
  modify (emit (ESignal sg d)) ;;
  modify (set_disposition sg d).

(** [sys.exit(code)]. *)
Definition sys_exit {A} (code : Z) : M A := raise (SystemExit code).

(** *** AgentControl *)

(** The instance [AgentControl(artifacts)] in a process that has done
    nothing yet. *)
Definition __init__ (artifacts : option string) : st :=
  mkSt [] 0 0 0 SIG_DFL SIG_DFL artifacts ∅ 0 None None None 0.

Definition _execute_api_command (endpoint : string) (payload : gmap string json)
  : M string :=
  let url := API_BASE +:+ endpoint in
  let payload := <["key" := JStr (duffy_key w)]> payload in
  requests_get url payload.

Definition free_session (node_ssid : json) : M unit :=
  _execute_api_command "/Node/done" {["ssid" := node_ssid]} ;;
  ret tt.

(** [_node] is a dict, never [None]: the first half of the test holds. *)
Definition __del__ : M unit :=
  node <- get _node ;;
  match node !! "ssid" with
  | Some ssid => free_session ssid
  | None => ret tt
  end.

(** The condition [not "hosts" in jroot or not "ssid" in jroot], negated. *)
Definition has_fields (jroot : json) : M bool :=
  h <- py_contains "hosts" jroot ;;
  if h then py_contains "ssid" jroot else ret false.

(** One iteration of the retry loop up to its [break]: the new binding of
    [jroot] and whether [break] was reached.  A [ValueError] (from
    [json.loads], which leaves [jroot] as it was, or from the field test)
    is caught and logged; anything else propagates. *)
Definition attempt (payload : gmap string json) (jroot : option json)
  : M (option json * bool) :=
  res <- _execute_api_command "/Node/get" payload ;;
  match json_loads w res with
  | None =>
      log ERROR "Received unexpected response from the server" ;;
      ret (jroot, false)
  | Some j =>
      ok <- has_fields j ;;
      if ok then ret (Some j, true)
      else log ERROR "Received unexpected response from the server" ;;
           ret (Some j, false)
  end.

(** The loop [for timeout in [...]], with the binding of [jroot]. *)
Fixpoint allocate_loop (timeouts : list Z) (payload : gmap string json)
                       (jroot : option json) : M (option json) :=
  match timeouts with
  | [] => ret jroot
  | timeout :: rest =>
      r <- attempt payload jroot ;;
      if r.2 then ret r.1
      else time_sleep timeout ;; allocate_loop rest payload r.1
  end.

(** The waits of the retry loop. *)
Definition backoff : list Z := [60; 300; 600; 1800; 3600].

(** The statements after the loop: [jroot] is read whatever the loop left
    in it. *)
Definition extract_lease (jroot : option json) : M (json * json) :=
  try_except
    (j <- read_var (UnboundLocalError "jroot") jroot ;;
     hosts <- py_getitem_str j "hosts" ;;
     host <- py_getitem_int hosts 0 ;;
     ssid <- py_getitem_str j "ssid" ;;
     ret (host, ssid))
    (fun e => match e with ValueError | IndexError => true | _ => false end)
    (fun _ => log ERROR "Failed to allocated a node" ;; ret (JNull, JNull)).

Definition allocate_node (version architecture : string) : M (json * json) :=
  let payload : gmap string json :=
    <["arch" := JStr architecture]> {["ver" := JStr version]} in
  jroot <- allocate_loop backoff payload None ;;
  extract_lease jroot.

(** The loop of [allocated_nodes]; a node is kept as the pair of its host
    and its session. *)
Fixpoint nodes_of (items : list json) : M (list (json * json)) :=
  match items with
  | [] => ret []
  | node :: rest =>
      host <- py_getitem_int node 0 ;;
      ssid <- py_getitem_int node 1 ;;
      nodes <- nodes_of rest ;;
      ret ((host, ssid) :: nodes)
  end.

Definition allocated_nodes (verbose : bool) : M (list (json * json)) :=
  res <- _execute_api_command "/Inventory" ∅ ;;
  jroot <- read_var ValueError (json_loads w res) ;;
  items <- py_iter jroot ;;
  nodes_of items.

(** [execute_local_command]: spawn, wait, return the exit code. *)
Definition execute_local_command (command : list string) : M Z :=
  n <- get n_proc ;;
  modify (emit (EExec command)) ;;
  modify next_proc ;;
  blocking ;;
  ret (proc w n).

(** The argument vector of [fetch_artifacts]. *)
Definition fetch_command (node remote_dir local_dir : string) : list string :=
  ["/usr/bin/scp"; "-r";
   "-o UserKnownHostsFile=/dev/null";
   "-o StrictHostKeyChecking=no";
   "root@" +:+ node +:+ ":" +:+ remote_dir; local_dir].

Definition fetch_artifacts (node remote_dir local_dir : string) : M Z :=
  let command := fetch_command node remote_dir local_dir in
  execute_local_command command.

Definition unexpected_rc_message (rc expected_rc : Z) : string :=
  "Remote command exited with an unexpected return code (got: "
  +:+ str_of_Z rc +:+ ", expected: " +:+ str_of_Z expected_rc
  +:+ "), bailing out".

(** The argument vector of [execute_remote_command]. *)
Definition command_wrapper (node command : string) : list string :=
  ["/usr/bin/ssh"; "-t";
   "-o"; "UserKnownHostsFile=/dev/null";
   "-o"; "StrictHostKeyChecking=no";
   "-o"; "ConnectTimeout=180";
   "-o"; "TCPKeepAlive=yes";
   "-o"; "ServerAliveInterval=2";
   "-l"; "root";
   node; command].

Definition execute_remote_command (node command : string) (expected_rc : Z)
    (artifacts_dir : option string) (ignore_rc : bool) : M Z :=
  rc <- execute_local_command (command_wrapper node command) ;;
  (* Fetch artifacts if both remote and local dirs are set *)
  storage <- get artifacts_storage ;;
  match artifacts_dir, storage with
  | Some remote, Some local =>
      arc <- fetch_artifacts node remote local ;;
      if negb (arc =? 0) then log WARNING "Fetching artifacts failed" else ret tt
  | _, _ => ret tt
  end ;;
  if negb ignore_rc && negb (rc =? expected_rc)
  then raise (Exception (unexpected_rc_message rc expected_rc))
  else ret rc.

(** The loop of [free_all_nodes]. *)
Fixpoint free_sessions_of (nodes : list (json * json)) : M unit :=
  match nodes with
  | [] => ret tt
  | node :: rest => free_session node.2 ;; free_sessions_of rest
  end.

Definition free_all_nodes : M unit :=
  nodes <- allocated_nodes false ;;
  free_sessions_of nodes.

(** The message of the exception [reboot_node] raises. *)
Definition reboot_timeout_message : string :=
  "Timeout reached when waiting for node to become online".

(** The probe loop [for i in range(10)], with the binding of [rc]. *)
Fixpoint ping_loop (tries : list nat) (ping_command : list string)
                   (rc : option Z) : M (option Z) :=
  match tries with
  | [] => ret rc
  | _ :: rest =>
      rc' <- execute_local_command ping_command ;;
      if rc' =? 0 then ret (Some rc')
      else time_sleep 15 ;; ping_loop rest ping_command (Some rc')
  end.

(** One probe: a single packet, with a 10 s timeout. *)
Definition ping_command (node : string) : list string :=
  ["/usr/bin/ping"; "-q"; "-c"; "1"; "-W"; "10"; node].

Definition reboot_node (node : string) : M unit :=
  execute_remote_command node "systemctl reboot" 255 None true ;;
  time_sleep 30 ;;
  rc <- ping_loop (seq 0 10) (ping_command node) None ;;
  rc <- read_var (UnboundLocalError "rc") rc ;;
  (if negb (rc =? 0) then raise (Exception reboot_timeout_message) else ret tt) ;;
  time_sleep 30.

(** [upload_file]: the copy in the other direction. *)
Definition upload_file (node local_source remote_target : string) : M Z :=
  let command :=
    ["/usr/bin/scp"; "-r";
     "-o UserKnownHostsFile=/dev/null";
     "-o StrictHostKeyChecking=no";
     local_source; "root@" +:+ node +:+ ":" +:+ remote_target] in
  execute_local_command command.

End AgentControl.

(** ** The script body *)

Section Script.

Variable w : world.
Variable args : Args.t.

(** The systemd branch to compile. *)
Definition branch : string :=
  if truthy (Args.pr args) then "pr:" +:+ default "" (Args.pr args)
  else if truthy (Args.branch args) then default "" (Args.branch args)
  else "".

(** [node] is what the pool returned as first host.  [" ".join] in
    [execute_local_command] raises [TypeError] on an argument vector with
    an item that is no string, before anything is spawned; every use of
    [node] comes after the first remote command, so the test sits there. *)
Definition hostname (node : json) : M string :=
  match node with
  | JStr h => ret h
  | _ => raise TypeError
  end.

(** The commands of the phases. *)
Definition phase1_command : string :=
  "yum -y install bash git && rm -fr " +:+ GITHUB_CI_REPO
  +:+ " && git clone " +:+ GITHUB_BASE +:+ GITHUB_CI_REPO.

Definition phase15_command (ci_pr : string) : string :=
  "cd " +:+ GITHUB_CI_REPO +:+ " && git fetch -fu origin 'refs/pull/"
  +:+ ci_pr +:+ "/merge:pr' && git checkout pr".

Definition bootstrap_command : string :=
  match Args.rhel args with
  | Some v => GITHUB_CI_REPO +:+ "/agent/bootstrap-rhel" +:+ str_of_Z v
              +:+ ".sh " +:+ branch
  | None => GITHUB_CI_REPO +:+ "/agent/bootstrap.sh " +:+ branch
  end.

Definition testsuite_command : string :=
  match Args.rhel args with
  | Some v => GITHUB_CI_REPO +:+ "/agent/testsuite-rhel" +:+ str_of_Z v
              +:+ ".sh " +:+ branch
  | None => GITHUB_CI_REPO +:+ "/agent/testsuite.sh"
  end.

(** Setup artifacts storage. *)
Definition setup_artifacts_storage : M unit :=
  let artifacts_dir := mkdtemp w in
  checkpoint w ;;
  modify (emit (EMkdtemp artifacts_dir)) ;;
  modify (set_v_artifacts_dir artifacts_dir) ;;
  modify (set_artifacts_storage (Some artifacts_dir)).

(** The phases that run on the leased node. *)
Definition phases (node : json) : M unit :=
  (* PHASE 1 *)
  host <- hostname node ;;
  execute_remote_command w host phase1_command 0 None false ;;
  (if truthy (Args.ci_pr args) then
     (* PHASE 1.5 *)
     execute_remote_command w host
       (phase15_command (default "" (Args.ci_pr args))) 0 None false ;;
     ret tt
   else ret tt) ;;
  if Args.vagrant_sync args then
    (* PHASE 2: update and rebuild the Vagrant images *)
    upload_file w host DUFFY_KEY_FILE "/duffy.key" ;;
    execute_remote_command w host
      (GITHUB_CI_REPO +:+ "/vagrant/vagrant-make-cache.sh") 0 None false ;;
    ret tt
  else if truthy (Args.vagrant args) then
    (* PHASE 2: tests in Vagrant VMs *)
    execute_remote_command w host
      (GITHUB_CI_REPO +:+ "/vagrant/vagrant-ci-wrapper.sh "
       +:+ default "" (Args.vagrant args) +:+ " " +:+ branch)
      0 (Some "~/vagrant-logs*") false ;;
    ret tt
  else
    (* PHASE 2: bootstrap *)
    execute_remote_command w host bootstrap_command
      0 (Some "~/bootstrap-logs*") false ;;
    reboot_node w host ;;
    (* PHASE 3: upstream testsuite *)
    execute_remote_command w host testsuite_command
      0 (Some "~/testsuite-logs*") false ;;
    ret tt.

(** Everything of the [try] block after the test for a valid node. *)
Definition workflow (node : json) : M unit :=
  setup_artifacts_storage ;;
  phases node.

(** [j is None]. *)
Definition is_None (j : json) : bool :=
  match j with
  | JNull => true
  | _ => false
  end.

(** Workaround for Jenkins, which sends SIGTERM/SIGHUP. *)
Definition install_handlers : M unit :=
  signal_signal SIGTERM Handler ;;
  signal_signal SIGHUP Handler.

(** The [try] block after the installation of the handlers. *)
Definition main_try_body : M unit :=
  r <- allocate_node w (Args.version args) (Args.arch args) ;;
  modify (set_v_lease r.1 r.2) ;;
  (if is_None r.1 || is_None r.2 then
     checkpoint w ;;
     log CRITICAL "Can't continue without a valid node" ;;
     sys_exit 1
   else ret tt) ;;
  workflow r.1 ;;
  checkpoint w.

(** The [try] block. *)
Definition main_try : M unit :=
  install_handlers ;;
  main_try_body.

(** [except SignalException: ...  except Exception as e: ...]: the first
    clause that matches handles the exception.  An exception that the
    clause raises itself (the handler of a further signal) leaves the
    [try] statement. *)
Definition main_except (e : exn) : M unit :=
  checkpoint w ;;
  if is_SignalException e then ret tt
  else log ERROR "Execution failed" ;; modify (set_v_rc 1).

(** Ignore SIGTERM/SIGHUP until the cleanup is complete (lines 463, 464). *)
Definition mask_signals : M unit :=
  checkpoint w ;;
  signal_signal SIGTERM SIG_IGN ;;
  checkpoint w ;;
  signal_signal SIGHUP SIG_IGN.

(** Restore default signal handlers (lines 469, 470). *)
Definition restore_signals : M unit :=
  checkpoint w ;;
  signal_signal SIGTERM SIG_DFL ;;
  checkpoint w ;;
  signal_signal SIGHUP SIG_DFL.

(** The release step of the [finally] block. *)
Definition release_step : M unit :=
  mask_signals ;;
  v <- get v_ssid ;;
  ssid <- read_var (NameError "ssid") v ;;
  free_session w ssid ;;
  restore_signals.

Definition index_step : M unit :=
  if index_script_isfile w && negb (Args.no_index args) then
    v <- get v_artifacts_dir ;;
    artifacts_dir <- read_var (NameError "artifacts_dir") v ;;
    execute_local_command w ["utils/generate-index.sh"; artifacts_dir; "index.html"] ;;
    ret tt
  else ret tt.

(** The [finally] block. *)
Definition main_finally : M unit :=
  (if negb (Args.keep args) then release_step else ret tt) ;;
  index_step.

(** A job run: from [rc = 0] to the final [sys.exit(rc)]. *)
Definition main_job : M unit :=
  modify (set_v_rc 0) ;;
  try_finally (try_except main_try is_Exception main_except) main_finally ;;
  checkpoint w ;;
  rc <- get v_rc ;;
  sys_exit rc.

Definition main : M unit :=
  if truthy (Args.free_session args) then
    free_session w (JStr (default "" (Args.free_session args))) ;;
    sys_exit 0
  else if Args.free_all_nodes args then
    free_all_nodes w ;;
    sys_exit 0
  else if Args.list_nodes args then
    allocated_nodes w true ;;
    sys_exit 0
  else main_job.

(** The script, run on a fresh [AgentControl()]. *)
Definition run_script : res unit * st := main (__init__ None).

End Script.

(** How the process ends. *)
Inductive outcome :=
| Exited (status : Z)
| KilledBy (sg : signum).

(** [sys.exit(n)] ends the process with status [n]; any other exception
    that reaches the top level prints a traceback and ends it with 1. *)
Definition exit_status (r : res unit) : outcome :=
  match r with
  | Ret _ => Exited 0
  | Exc (SystemExit code) => Exited code
  | Exc _ => Exited 1
  | Killed sg => KilledBy sg
  end.

(** ** Observations on traces *)

Definition sleeps (tr : list event) : list Z :=
  omap (fun e => match e with ESleep t => Some t | _ => None end) tr.

Definition requests_to (endpoint : string) (tr : list event)
  : list (gmap string json) :=
  omap (fun e => match e with
                 | EHttp url payload =>
                     if String.eqb url (API_BASE +:+ endpoint)
                     then Some payload else None
                 | _ => None
                 end) tr.

(** The session identifiers of the release calls, in order. *)
Definition releases (tr : list event) : list json :=
  (fun payload => default JNull (payload !! "ssid")) <$> requests_to "/Node/done" tr.

Definition execs (tr : list event) : list (list string) :=
  omap (fun e => match e with EExec argv => Some argv | _ => None end) tr.

Definition warnings (tr : list event) : list string :=
  omap (fun e => match e with ELog WARNING m => Some m | _ => None end) tr.

(** The process never has to act on a termination signal. *)
Definition quiet (w : world) : Prop := forall n, sigs w n = None.

(** ** Worlds and arguments of the examples *)

(** A world given by finite lists: past the end of a list, response
    bodies are empty, exit codes are 0 and no signal is due. *)
Definition world_of (loads : string -> option json) (bodies : list string)
    (codes : list Z) (signals : list (option signum)) (isfile : bool) : world :=
  mkWorld loads
          (fun n => nth n bodies "")
          (fun n => nth n codes 0)
          (fun n => nth n signals None)
          "secret" isfile "./artifacts_x".

Definition dquote : string := String (Ascii.ascii_of_nat 34) "".

Definition quoted (s : string) : string := dquote +:+ s +:+ dquote.

(** The bodies [{"hosts":["host1"],"ssid":"abc"}] and
    [{"hosts":[],"ssid":"abc"}], and what they decode to. *)
Definition body_host1 : string :=
  "{" +:+ quoted "hosts" +:+ ":[" +:+ quoted "host1" +:+ "],"
  +:+ quoted "ssid" +:+ ":" +:+ quoted "abc" +:+ "}".

Definition body_no_hosts : string :=
  "{" +:+ quoted "hosts" +:+ ":[]," +:+ quoted "ssid" +:+ ":" +:+ quoted "abc" +:+ "}".

Definition lease_host1 : gmap string json :=
  <["hosts" := JArr [JStr "host1"]]> {["ssid" := JStr "abc"]}.

Definition lease_no_hosts : gmap string json :=
  <["hosts" := JArr []]> {["ssid" := JStr "abc"]}.

(** The pool's answer when it has run out of machines: no JSON. *)
Definition pool_error : string := "Insufficient Nodes in READY State".

(** What [json.loads] makes of the bodies the examples use; any other
    body raises [ValueError]. *)
Definition toy_loads (body : string) : option json :=
  if String.eqb body body_host1 then Some (JObj lease_host1)
  else if String.eqb body body_no_hosts then Some (JObj lease_no_hosts)
  else if String.eqb body "{}" then Some (JObj ∅)
  else None.

(** The command line without options. *)
Definition default_args : Args.t :=
  Args.mk "x86_64" None None false None false false false None None None false "7".

(** ** The responses of the pool *)

(** A response that the retry loop logs as unexpected and waits on (lines
    89 to 97): a body that [json.loads] rejects, or a JSON object without
    the key [hosts] or without the key [ssid].  (The loop also waits on a
    JSON string or list in which one of the two words does not occur; the
    properties do not need them.) *)
Definition unexpected (parsed : option json) : bool :=
  match parsed with
  | None => true
  | Some (JObj m) =>
      negb (bool_decide (is_Some (m !! "hosts")))
      || negb (bool_decide (is_Some (m !! "ssid")))
  | Some _ => false
  end.

(** ** Notions of the specification *)

(** A response with at least one host identifier and a session identifier. *)
Definition well_formed (parsed : option json) : bool :=
  match parsed with
  | Some (JObj m) =>
      match m !! "hosts", m !! "ssid" with
      | Some (JArr (_ :: _)), Some _ => true
      | _, _ => false
      end
  | _ => false
  end.

(** Every other response: "otherwise it is treated as malformed". *)
Definition malformed (parsed : option json) : bool := negb (well_formed parsed).

(** A response that parses but is not well-formed. *)
Definition incomplete (parsed : option json) : bool :=
  match parsed with
  | Some _ => negb (well_formed parsed)
  | None => false
  end.

(** The Lease in the result of [allocate_node], as the script reads it:
    none when the call raised or when host or session is [None]. *)
Definition lease_of (r : res (json * json)) : option (json * json) :=
  match r with
  | Ret (host, ssid) => if is_None host || is_None ssid then None else Some (host, ssid)
  | _ => None
  end.

(** Requests and waits, in the order they happen. *)
Inductive tick :=
| Request
| Wait (secs : Z).

Definition schedule (tr : list event) : list tick :=
  omap (fun e => match e with
                 | EHttp _ _ => Some Request
                 | ESleep t => Some (Wait t)
                 | _ => None
                 end) tr.

(** [k] failed attempts, each followed by its wait. *)
Definition retries (timeouts : list Z) : list tick :=
  flat_map (fun t => [Request; Wait t]) timeouts.

(** ** Notions used in the statements *)

(** The state after the request of one attempt. *)
Definition requested (w : world) (payload : gmap string json) (s : st) : st :=
  next_block (next_http (emit (EHttp (API_BASE +:+ "/Node/get")
                                     (<["key" := JStr (duffy_key w)]> payload)) s)).

(** The binding of [jroot] after [jroot = json.loads(res)]: unchanged when
    [json.loads] raises. *)
Definition rebound (parsed jroot : option json) : option json :=
  match parsed with
  | Some j => Some j
  | None => jroot
  end.

(** What [jroot] can be bound to after failed attempts only. *)
Definition stale (jroot : option json) : Prop :=
  match jroot with
  | None => True
  | Some j => unexpected (Some j) = true
  end.

(** The state after a process has been spawned and waited for. *)
Definition spawned (command : list string) (s : st) : st :=
  next_block (next_proc (emit (EExec command) s)).

(** The state after the artifact copy of a remote command, when there is
    one. *)
Definition fetched (w : world) (node : string) (artifacts_dir : option string)
    (s : st) : st :=
  match artifacts_dir, artifacts_storage s with
  | Some remote, Some local =>
      let s' := spawned (fetch_command node remote local) s in
      if negb (proc w (n_proc s) =? 0)
      then emit (ELog WARNING "Fetching artifacts failed") s'
      else s'
  | _, _ => s
  end.

(** [k] failed probes, each followed by the inter-attempt delay. *)
Definition failed_probes (node : string) (k : nat) : list event :=
  concat (replicate k [EExec (ping_command node); ESleep 15]).

(** The reboot command and the cooldown that precedes the first probe. *)
Definition reboot_prelude (node : string) : list event :=
  [EExec (command_wrapper node "systemctl reboot"); ESleep 30].

(** [m] never changes the observation [f] of the state, however it ends. *)
Definition preserves {A B} (f : st -> B) (m : M A) : Prop :=
  forall s, f (m s).2 = f s.

(** A request to the release endpoint. *)
Definition is_release (e : event) : bool :=
  match e with
  | EHttp url _ => String.eqb url (API_BASE +:+ "/Node/done")
  | _ => false
  end.

Create HintDb preserves.

(** Both signals are ignored. *)
Definition ignoring (s : st) : Prop :=
  on_sigterm s = SIG_IGN /\ on_sighup s = SIG_IGN.

(** The state once both signals are ignored, when no handler has run in
    front of the two calls. *)
Definition masked (s : st) : st :=
  set_disposition SIGHUP SIG_IGN (emit (ESignal SIGHUP SIG_IGN) (next_block
    (set_disposition SIGTERM SIG_IGN (emit (ESignal SIGTERM SIG_IGN) (next_block s))))).

(** The state in front of line 470: SIGTERM has its default disposition
    again, SIGHUP is still ignored. *)
Definition half_restored (s : st) : st :=
  next_block (set_disposition SIGTERM SIG_DFL (emit (ESignal SIGTERM SIG_DFL)
    (next_block s))).

(** The state once both signals are back to their default disposition. *)
Definition restored (s : st) : st :=
  set_disposition SIGHUP SIG_DFL (emit (ESignal SIGHUP SIG_DFL) (half_restored s)).

(** The request [free_session] sends. *)
Definition release_request (w : world) (ssid : json) : event :=
  EHttp (API_BASE +:+ "/Node/done") (<["key" := JStr (duffy_key w)]> {["ssid" := ssid]}).

(** The state after the release request, sent in state [s]. *)
Definition requested_release (w : world) (ssid : json) (s : st) : st :=
  next_block (next_http (emit (release_request w ssid) s)).

(** The state at the end of the release step. *)
Definition released (w : world) (ssid : json) (s : st) : st :=
  restored (requested_release w ssid (masked s)).

(** Nothing but the release step sends a release request. *)
Definition no_release {A} (m : M A) : Prop :=
  preserves (fun s => releases (trace s)) m.

(** The variables of the script body. *)
Definition script_vars (s : st) : option json * option json * option string * Z :=
  (v_node s, v_ssid s, v_artifacts_dir s, v_rc s).

(** Whether the index page is generated. *)
Definition index_on (w : world) (args : Args.t) : bool :=
  index_script_isfile w && negb (Args.no_index args).

(** The argument vector of the index generation. *)
Definition index_command (w : world) : list string :=
  ["utils/generate-index.sh"; mkdtemp w; "index.html"].

(** From delivery point [n] on the process has no signal to act on,
    unless at the points [but]. *)
Definition calm (w : world) (n : nat) (but : list nat) : Prop :=
  forall i, (n <= i)%nat -> i ∉ but -> sigs w i = None.

(** The delivery point of the release request, when the [except] clause
    that handles the exception of the [try] block is entered at delivery
    point [n]: the clause and the two calls that mask the signals come
    first. *)
Definition release_point (n : nat) : nat := n + 3.

(** What the [finally] block adds to the trace. *)
Definition release_events (w : world) (args : Args.t) (ssid : json) : list event :=
  if Args.keep args then []
  else [ESignal SIGTERM SIG_IGN; ESignal SIGHUP SIG_IGN;
        release_request w ssid;
        ESignal SIGTERM SIG_DFL; ESignal SIGHUP SIG_DFL].

(** What the index generation adds to the trace. *)
Definition index_events (w : world) (args : Args.t) : list event :=
  if index_on w args then [EExec (index_command w)] else [].

(** What the [except] clauses add to the trace. *)
Definition failure_log (e : exn) : list event :=
  if is_SignalException e then [] else [ELog ERROR "Execution failed"].

(** The sessions for which the [finally] block, entered in state [s],
    sends a release request: the one [ssid] is bound to, if the two calls
    that mask the signals are made. *)
Definition due_release (w : world) (args : Args.t) (s : st) : list json :=
  if Args.keep args then []
  else match (mask_signals w s).1 with
       | Ret _ => option_list (v_ssid s)
       | _ => []
       end.

(** What can be done with an [AgentControl] instance: a call of one of
    its methods, an assignment to its public attribute, or the run of the
    script body on it. *)
Inductive call :=
| Call_allocate_node (version architecture : string)
| Call_allocated_nodes (verbose : bool)
| Call_execute_local_command (command : list string)
| Call_execute_remote_command (node command : string) (expected_rc : Z)
    (artifacts_dir : option string) (ignore_rc : bool)
| Call_fetch_artifacts (node remote_dir local_dir : string)
| Call_free_all_nodes
| Call_free_session (node_ssid : json)
| Call_reboot_node (node : string)
| Call_upload_file (node local_source remote_target : string)
| Set_artifacts_storage (dir : option string)
| Run_main (args : Args.t).

(** One call, its result dropped. *)
Definition perform (w : world) (c : call) : M unit :=
  match c with
  | Call_allocate_node version architecture =>
      allocate_node w version architecture ;; ret tt
  | Call_allocated_nodes verbose => allocated_nodes w verbose ;; ret tt
  | Call_execute_local_command command => execute_local_command w command ;; ret tt
  | Call_execute_remote_command node command expected_rc artifacts_dir ignore_rc =>
      execute_remote_command w node command expected_rc artifacts_dir ignore_rc ;; ret tt
  | Call_fetch_artifacts node remote_dir local_dir =>
      fetch_artifacts w node remote_dir local_dir ;; ret tt
  | Call_free_all_nodes => free_all_nodes w
  | Call_free_session node_ssid => free_session w node_ssid
  | Call_reboot_node node => reboot_node w node
  | Call_upload_file node local_source remote_target =>
      upload_file w node local_source remote_target ;; ret tt
  | Set_artifacts_storage dir => modify (set_artifacts_storage dir)
  | Run_main args => main w args
  end.

(** The state after a sequence of calls, each started whether or not the
    one before raised; a process that a signal has killed makes no further
    call. *)
Fixpoint perform_all (w : world) (calls : list call) (s : st) : st :=
  match calls with
  | [] => s
  | c :: rest =>
      match perform w c s with
      | (Killed _, s') => s'
      | (_, s') => perform_all w rest s'
      end
  end.

(** ** Notions used in the further properties *)



(** A decoded response on which the membership test of the retry loop
    raises [TypeError]: [null], a boolean or a number. *)
Definition scalar (j : json) : bool :=
  match j with
  | JNull | JBool _ | JNum _ => true
  | _ => false
  end.

(** A decoder for the further examples: the body [null], the inventories
    [[["host2","xyz"]]] and [[["host2","xyz"],["host3"]]], a lease whose
    host is a number, and the bodies of [toy_loads]. *)
Definition body_inventory : string :=
  "[[" +:+ quoted "host2" +:+ "," +:+ quoted "xyz" +:+ "]]".

Definition body_short_inventory : string :=
  "[[" +:+ quoted "host2" +:+ "," +:+ quoted "xyz" +:+ "],[" +:+ quoted "host3" +:+ "]]".

Definition body_numeric_host : string :=
  "{" +:+ quoted "hosts" +:+ ":[7]," +:+ quoted "ssid" +:+ ":" +:+ quoted "abc" +:+ "}".

Definition more_loads (body : string) : option json :=
  if String.eqb body "null" then Some JNull
  else if String.eqb body body_inventory
  then Some (JArr [JArr [JStr "host2"; JStr "xyz"]])
  else if String.eqb body body_short_inventory
  then Some (JArr [JArr [JStr "host2"; JStr "xyz"]; JArr [JStr "host3"]])
  else if String.eqb body body_numeric_host
  then Some (JObj (<["hosts" := JArr [JNum 7]]> {["ssid" := JStr "abc"]}))
  else toy_loads body.

(** The inventory the pool sends for a list of (host, session) pairs. *)
Definition inventory_of (pairs : list (json * json)) : json :=
  JArr ((fun p => JArr [p.1; p.2]) <$> pairs).

(** The request [allocated_nodes] sends. *)
Definition inventory_request (w : world) : event :=
  EHttp (API_BASE +:+ "/Inventory") {["key" := JStr (duffy_key w)]}.

(** How a computation ends, whatever it returns. *)
Inductive fate :=
| Returned
| Raised (e : exn)
| Died (sg : signum).

Definition fate_of {A} (r : res A) : fate :=
  match r with
  | Ret _ => Returned
  | Exc e => Raised e
  | Killed sg => Died sg
  end.

(** [m] keeps the invariant [I] of the state and ends as [Q] says. *)
Definition keeps {A} (I : st -> Prop) (Q : fate -> Prop) (m : M A) : Prop :=
  forall s, I s -> I (m s).2 /\ Q (fate_of (m s).1).

(** The handler of the script is installed for both signals. *)
Definition armed (s : st) : Prop :=
  on_sigterm s = Handler /\ on_sighup s = Handler.

(** The process is alive. *)
Definition survives (f : fate) : Prop :=
  match f with
  | Died _ => False
  | _ => True
  end.

Definition is_http (e : event) : bool :=
  match e with
  | EHttp _ _ => true
  | _ => false
  end.

(** The endpoints of the pool that the script uses. *)
Definition endpoints : list string := ["/Node/get"; "/Node/done"; "/Inventory"].

(** A request is sent to one of these endpoints under [API_BASE] and
    carries the key. *)
Definition known_request (w : world) (e : event) : Prop :=
  match e with
  | EHttp url payload =>
      (exists endpoint, endpoint ∈ endpoints /\ url = API_BASE +:+ endpoint)
      /\ payload !! "key" = Some (JStr (duffy_key w))
  | _ => True
  end.

Create HintDb keeps.

(** The allocation has ended without a Lease and without a caught signal:
    [allocate_node] has returned a pair with a [None] in it, or raised
    something other than the exception of the signal handler. *)
Definition allocation_failed (r : res (json * json)) : Prop :=
  match r with
  | Ret (node, ssid) => is_None node || is_None ssid = true
  | Exc e => is_Exception e = true /\ is_SignalException e = false
  | Killed _ => False
  end.

(** Seconds slept in all. *)
Definition total_sleep (l : list Z) : Z := foldr Z.add 0 l.

(** The argument vector of [upload_file]. *)
Definition upload_command (node local_source remote_target : string) : list string :=
  ["/usr/bin/scp"; "-r";
   "-o UserKnownHostsFile=/dev/null";
   "-o StrictHostKeyChecking=no";
   local_source; "root@" +:+ node +:+ ":" +:+ remote_target].

(** The processes of the phases of a job in which every command succeeds,
    in the order in which they are spawned. *)
Definition phase_commands (w : world) (args : Args.t) (host : string)
  : list (list string) :=
  [command_wrapper host phase1_command]
  ++ (if truthy (Args.ci_pr args)
      then [command_wrapper host (phase15_command (default "" (Args.ci_pr args)))]
      else [])
  ++ (if Args.vagrant_sync args then
        [upload_command host DUFFY_KEY_FILE "/duffy.key";
         command_wrapper host (GITHUB_CI_REPO +:+ "/vagrant/vagrant-make-cache.sh")]
      else if truthy (Args.vagrant args) then
        [command_wrapper host
           (GITHUB_CI_REPO +:+ "/vagrant/vagrant-ci-wrapper.sh "
            +:+ default "" (Args.vagrant args) +:+ " " +:+ branch args);
         fetch_command host "~/vagrant-logs*" (mkdtemp w)]
      else
        [command_wrapper host (bootstrap_command args);
         fetch_command host "~/bootstrap-logs*" (mkdtemp w);
         command_wrapper host "systemctl reboot";
         ping_command host;
         command_wrapper host (testsuite_command args);
         fetch_command host "~/testsuite-logs*" (mkdtemp w)]).

(** From a state whose artifacts storage is the job's directory, [m]
    returns after having spawned exactly [cmds], and leaves the storage as
    it is. *)
Definition spawns {A} (w : world) (m : M A) (cmds : list (list string)) : Prop :=
  forall s,
    artifacts_storage s = Some (mkdtemp w) ->
    exists a s',
      m s = (Ret a, s')
      /\ execs (trace s') = execs (trace s) ++ cmds
      /\ artifacts_storage s' = Some (mkdtemp w).

(** * Properties *)

(** ** Sequencing *)

Lemma bind_Ret {A B} (m : M A) (f : A -> M B) s a s' :
  m s = (Ret a, s') -> bind m f s = f a s'.
Proof. intros H. unfold bind. rewrite H. reflexivity. Qed.

Lemma bind_Exc {A B} (m : M A) (f : A -> M B) s e s' :
  m s = (Exc e, s') -> bind m f s = (Exc e, s').
Proof. intros H. unfold bind. rewrite H. reflexivity. Qed.

Lemma bind_Killed {A B} (m : M A) (f : A -> M B) s sg s' :
  m s = (Killed sg, s') -> bind m f s = (Killed sg, s').
Proof. intros H. unfold bind. rewrite H. reflexivity. Qed.

(** ** Runs without signals: what each primitive does *)

Section Quiet.

Variable w : world.
Hypothesis Hq : quiet w.

Lemma blocking_quiet s : blocking w s = (Ret tt, next_block s).
Proof. unfold blocking. rewrite Hq. reflexivity. Qed.

Lemma time_sleep_quiet t s :
  time_sleep w t s = (Ret tt, next_block (emit (ESleep t) s)).
Proof. unfold time_sleep, bind, modify. rewrite blocking_quiet. reflexivity. Qed.

Lemma _execute_api_command_quiet endpoint payload s :
  _execute_api_command w endpoint payload s =
  (Ret (http w (n_http s)),
   next_block (next_http (emit (EHttp (API_BASE +:+ endpoint)
                                      (<["key" := JStr (duffy_key w)]> payload)) s))).
Proof.
  unfold _execute_api_command, requests_get, bind, modify, get.
  rewrite blocking_quiet. reflexivity.
Qed.

Lemma execute_local_command_quiet command s :
  execute_local_command w command s =
  (Ret (proc w (n_proc s)), next_block (next_proc (emit (EExec command) s))).
Proof.
  unfold execute_local_command, bind, modify, get.
  rewrite blocking_quiet. reflexivity.
Qed.

End Quiet.

(** ** Allocation *)

Lemma schedule_app tr1 tr2 : schedule (tr1 ++ tr2) = schedule tr1 ++ schedule tr2.
Proof. apply omap_app. Qed.

Lemma sleeps_app tr1 tr2 : sleeps (tr1 ++ tr2) = sleeps tr1 ++ sleeps tr2.
Proof. apply omap_app. Qed.

Lemma has_fields_JObj m s :
  has_fields (JObj m) s =
  (Ret (bool_decide (is_Some (m !! "hosts")) && bool_decide (is_Some (m !! "ssid"))), s).
Proof.
  unfold has_fields, bind. simpl.
  destruct (bool_decide (is_Some (m !! "hosts"))); reflexivity.
Qed.

Lemma attempt_unexpected w payload jroot s :
  quiet w ->
  unexpected (json_loads w (http w (n_http s))) = true ->
  attempt w payload jroot s =
  (Ret (rebound (json_loads w (http w (n_http s))) jroot, false),
   emit (ELog ERROR "Received unexpected response from the server")
        (requested w payload s)).
Proof.
  intros Hq Hm. unfold attempt, bind.
  rewrite _execute_api_command_quiet by assumption.
  destruct (json_loads w (http w (n_http s))) as [j|]; [|reflexivity].
  destruct j; try discriminate Hm.
  rewrite has_fields_JObj. simpl in Hm.
  destruct (bool_decide (is_Some (m !! "hosts"))),
           (bool_decide (is_Some (m !! "ssid"))); try discriminate Hm; reflexivity.
Qed.

Lemma attempt_has_fields w payload jroot s m :
  quiet w ->
  json_loads w (http w (n_http s)) = Some (JObj m) ->
  is_Some (m !! "hosts") -> is_Some (m !! "ssid") ->
  attempt w payload jroot s = (Ret (Some (JObj m), true), requested w payload s).
Proof.
  intros Hq Hj Hh Hs. unfold attempt, bind.
  rewrite _execute_api_command_quiet by assumption.
  rewrite Hj, has_fields_JObj.
  rewrite !bool_decide_eq_true_2 by assumption. reflexivity.
Qed.

Lemma rebound_stale parsed jroot :
  unexpected parsed = true -> stale jroot -> stale (rebound parsed jroot).
Proof. destruct parsed; simpl; auto. Qed.

(** A failed attempt is followed by its wait and by the rest of the loop. *)
Lemma allocate_loop_retry w timeout rest payload jroot s :
  quiet w ->
  unexpected (json_loads w (http w (n_http s))) = true ->
  exists jroot' s1,
    allocate_loop w (timeout :: rest) payload jroot s
      = allocate_loop w rest payload jroot' s1
    /\ jroot' = rebound (json_loads w (http w (n_http s))) jroot
    /\ schedule (trace s1) = schedule (trace s) ++ [Request; Wait timeout]
    /\ n_http s1 = S (n_http s).
Proof.
  intros Hq Hm. eexists _, _. split; [|split; [reflexivity|]].
  - simpl. unfold bind at 1. rewrite attempt_unexpected by assumption.
    simpl. unfold bind at 1. rewrite time_sleep_quiet by assumption. reflexivity.
  - simpl. rewrite !schedule_app. simpl. rewrite <- !app_assoc. auto.
Qed.

(** Failed attempts only: the loop runs to the end of the schedule. *)
Lemma allocate_loop_all_unexpected w timeouts payload : forall jroot s,
  quiet w ->
  (forall i, (i < length timeouts)%nat ->
             unexpected (json_loads w (http w (n_http s + i))) = true) ->
  stale jroot ->
  exists jroot' s',
    allocate_loop w timeouts payload jroot s = (Ret jroot', s')
    /\ stale jroot'
    /\ schedule (trace s') = schedule (trace s) ++ retries timeouts
    /\ n_http s' = (n_http s + length timeouts)%nat.
Proof.
  induction timeouts as [|timeout rest IH]; intros jroot s Hq Hall Hst.
  - exists jroot, s. simpl. rewrite app_nil_r, Nat.add_0_r. auto.
  - assert (H0 : unexpected (json_loads w (http w (n_http s))) = true).
    { specialize (Hall 0%nat). rewrite Nat.add_0_r in Hall. apply Hall. simpl. lia. }
    destruct (allocate_loop_retry w timeout rest payload jroot s Hq H0)
      as (jroot1 & s1 & Hstep & Hj & Hsch & Hn).
    destruct (IH jroot1 s1 Hq) as (jroot' & s' & Hrun & Hst' & Hsch' & Hn').
    + intros i Hi. rewrite Hn. replace (S (n_http s) + i)%nat with (n_http s + S i)%nat by lia.
      apply Hall. simpl. lia.
    + subst jroot1. apply rebound_stale; assumption.
    + exists jroot', s'. rewrite Hstep, Hrun. split; [reflexivity|]. split; [assumption|].
      rewrite Hsch', Hsch, Hn', Hn. simpl. rewrite <- app_assoc. split; [reflexivity | lia].
Qed.

(** [k] failed attempts, then a response with both fields: the loop leaves
    at its [break] with that response. *)
Lemma allocate_loop_break w payload m : forall timeouts k jroot s,
  quiet w ->
  (k < length timeouts)%nat ->
  (forall i, (i < k)%nat ->
             unexpected (json_loads w (http w (n_http s + i))) = true) ->
  json_loads w (http w (n_http s + k)) = Some (JObj m) ->
  is_Some (m !! "hosts") -> is_Some (m !! "ssid") ->
  exists s',
    allocate_loop w timeouts payload jroot s = (Ret (Some (JObj m)), s')
    /\ schedule (trace s') = schedule (trace s) ++ retries (take k timeouts) ++ [Request]
    /\ sleeps (trace s') = sleeps (trace s) ++ take k timeouts
    /\ n_http s' = (n_http s + k + 1)%nat.
Proof.
  induction timeouts as [|timeout rest IH]; intros k jroot s Hq Hk Hbad Hok Hh Hs.
  - simpl in Hk. lia.
  - destruct k as [|k].
    + rewrite Nat.add_0_r in Hok. eexists. split; [|split; [|split]].
      * simpl. unfold bind at 1. rewrite (attempt_has_fields w payload jroot s m) by assumption.
        reflexivity.
      * simpl. rewrite schedule_app. reflexivity.
      * simpl. rewrite sleeps_app. simpl. rewrite app_nil_r. reflexivity.
      * simpl. lia.
    + assert (H0 : unexpected (json_loads w (http w (n_http s))) = true).
      { specialize (Hbad 0%nat). rewrite Nat.add_0_r in Hbad. apply Hbad. lia. }
      pose proof (attempt_unexpected w payload jroot s Hq H0) as Hatt.
      destruct (IH k (rebound (json_loads w (http w (n_http s))) jroot)
                  (next_block (emit (ESleep timeout)
                     (emit (ELog ERROR "Received unexpected response from the server")
                           (requested w payload s)))) Hq)
        as (s' & Hrun & Hsch & Hsl & Hn); try assumption.
      * simpl in Hk. lia.
      * intros i Hi. simpl. rewrite <- Nat.add_succ_r. apply Hbad. lia.
      * simpl. rewrite <- Nat.add_succ_r. assumption.
      * exists s'. split; [|split; [|split]].
        -- simpl. unfold bind at 1. rewrite Hatt. simpl. unfold bind at 1.
           rewrite time_sleep_quiet by assumption. exact Hrun.
        -- rewrite Hsch. simpl. rewrite !schedule_app. simpl.
           rewrite <- !app_assoc. reflexivity.
        -- rewrite Hsl. simpl. rewrite !sleeps_app. simpl.
           rewrite <- !app_assoc. reflexivity.
        -- rewrite Hn. simpl. lia.
Qed.

Lemma extract_lease_lease m host hosts ssid s :
  m !! "hosts" = Some (JArr (host :: hosts)) ->
  m !! "ssid" = Some ssid ->
  extract_lease (Some (JObj m)) s = (Ret (host, ssid), s).
Proof.
  intros Hh Hs. unfold extract_lease, try_except, bind. simpl.
  rewrite Hh. simpl. rewrite Hs. reflexivity.
Qed.

Lemma extract_lease_no_hosts m s :
  m !! "hosts" = Some (JArr []) ->
  extract_lease (Some (JObj m)) s =
  (Ret (JNull, JNull), emit (ELog ERROR "Failed to allocated a node") s).
Proof.
  intros Hh. unfold extract_lease, try_except, bind. simpl.
  rewrite Hh. reflexivity.
Qed.

(** After failed attempts only, no host and session pair comes out. *)
Lemma extract_lease_stale jroot s :
  stale jroot ->
  exists r s',
    extract_lease jroot s = (r, s')
    /\ schedule (trace s') = schedule (trace s)
    /\ n_http s' = n_http s
    /\ (r = Ret (JNull, JNull) \/ exists e, r = Exc e).
Proof.
  intros Hst. destruct (extract_lease jroot s) as [r s'] eqn:E.
  exists r, s'. split; [reflexivity|].
  unfold extract_lease, try_except, bind in E.
  destruct jroot as [j|]; simpl in E.
  - destruct j; simpl in Hst; try discriminate Hst; simpl in E.
    destruct (m !! "hosts") as [h|] eqn:Hh; simpl in E.
    + destruct (m !! "ssid") as [x|] eqn:Hs.
      { exfalso. rewrite !bool_decide_eq_true_2 in Hst by eauto. discriminate Hst. }
      destruct h as [| | |str|l|m']; simpl in E;
        try (injection E as <- <-; rewrite ?schedule_app, ?app_nil_r; eauto 6).
      * destruct (String.get 0 str); simpl in E;
          injection E as <- <-; simpl; rewrite ?schedule_app, ?app_nil_r; eauto 6.
      * destruct (l !! 0%nat); simpl in E;
          injection E as <- <-; simpl; rewrite ?schedule_app, ?app_nil_r; eauto 6.
    + injection E as <- <-. eauto 6.
  - injection E as <- <-. eauto 6.
Qed.

Lemma world_of_quiet loads bodies codes isfile :
  quiet (world_of loads bodies codes [] isfile).
Proof. intros [|n]; reflexivity. Qed.

(** The responses that the loop waits on are malformed in the sense of the
    specification; the converse fails. *)
Lemma unexpected_malformed parsed : unexpected parsed = true -> malformed parsed = true.
Proof.
  unfold unexpected, malformed, well_formed.
  destruct parsed as [[| | | | |m]|]; try reflexivity; try discriminate.
  destruct (m !! "hosts") as [[| | | |[|]|]|], (m !! "ssid"); simpl;
    try reflexivity; intros H; discriminate H.
Qed.

(** C2, as stated, fails: when every response is malformed because its
    hosts list is empty, [allocate_node] sends one request and never
    waits. *)
Lemma malformed_responses_are_not_always_retried :
  ~ (forall w version architecture s,
       quiet w ->
       (forall i, (i < 5)%nat ->
                  malformed (json_loads w (http w (n_http s + i))) = true) ->
       exists r s',
         allocate_node w version architecture s = (r, s')
         /\ schedule (trace s') =
              schedule (trace s) ++
              [Request; Wait 60; Request; Wait 300; Request; Wait 600;
               Request; Wait 1800; Request; Wait 3600]
         /\ n_http s' = (n_http s + 5)%nat
         /\ lease_of r = None
         /\ (r = Ret (JNull, JNull) \/ exists e, r = Exc e)).
Proof.
  intros H.
  destruct (H (world_of toy_loads
                 [body_no_hosts; body_no_hosts; body_no_hosts; body_no_hosts; body_no_hosts]
                 [] [] true)
              "7" "x86_64" (__init__ None)) as (r & s' & Hrun & Hsch & _).
  - apply world_of_quiet.
  - intros i Hi. destruct i as [|[|[|[|[|i]]]]]; try (vm_compute; reflexivity). lia.
  - vm_compute in Hrun. injection Hrun as _ <-. vm_compute in Hsch. discriminate Hsch.
Qed.

(** C2, amended: when each of the five responses is one that the loop
    waits on (a body that is no JSON, or a JSON object without the hosts
    or the session field), [allocate_node] makes exactly five requests,
    each followed by its wait of the backoff sequence 60, 300, 600, 1800,
    3600 (the last wait included), and then fails: it raises or returns
    [(None, None)], and yields no Lease. *)
Theorem allocate_node_gives_up_after_five_attempts w version architecture s :
  quiet w ->
  (forall i, (i < 5)%nat ->
             unexpected (json_loads w (http w (n_http s + i))) = true) ->
  exists r s',
    allocate_node w version architecture s = (r, s')
    /\ schedule (trace s') =
         schedule (trace s) ++
         [Request; Wait 60; Request; Wait 300; Request; Wait 600;
          Request; Wait 1800; Request; Wait 3600]
    /\ n_http s' = (n_http s + 5)%nat
    /\ lease_of r = None
    /\ (r = Ret (JNull, JNull) \/ exists e, r = Exc e).
Proof.
  intros Hq Hall. unfold allocate_node, bind.
  destruct (allocate_loop_all_unexpected w backoff
              (<["arch" := JStr architecture]> {["ver" := JStr version]})
              None s Hq Hall I) as (jroot & s1 & Hrun & Hst & Hsch & Hn).
  rewrite Hrun.
  destruct (extract_lease_stale jroot s1 Hst) as (r & s' & Hex & Hsch' & Hn' & Hr).
  exists r, s'. rewrite Hex, Hsch', Hn', Hsch, Hn.
  repeat split; try reflexivity; try assumption.
  destruct Hr as [-> | [e ->]]; reflexivity.
Qed.

Lemma allocate_node_gives_up_after_five_attempts_witness :
  let w := world_of toy_loads [pool_error; "{}"; pool_error; pool_error; pool_error]
                    [] [] true in
  exists r s',
    allocate_node w "7" "x86_64" (__init__ None) = (r, s')
    /\ schedule (trace s') =
         schedule (trace (__init__ None)) ++
         [Request; Wait 60; Request; Wait 300; Request; Wait 600;
          Request; Wait 1800; Request; Wait 3600]
    /\ n_http s' = (n_http (__init__ None) + 5)%nat
    /\ lease_of r = None
    /\ (r = Ret (JNull, JNull) \/ exists e, r = Exc e).
Proof.
  intros w.
  apply (allocate_node_gives_up_after_five_attempts w "7" "x86_64" (__init__ None)).
  - apply world_of_quiet.
  - intros i Hi. destruct i as [|[|[|[|[|i]]]]]; try (vm_compute; reflexivity). lia.
Defined.



(** The pool answers the first request with a host and a session: they
    are returned at once, after one request and no sleep. *)
Example allocate_node_first_attempt :
  let w := world_of toy_loads [body_host1] [] [] true in
  let run := allocate_node w "7" "x86_64" (__init__ None) in
  run.1 = Ret (JStr "host1", JStr "abc")
  /\ schedule (trace run.2) = [Request]
  /\ sleeps (trace run.2) = [].
Proof. vm_compute. auto. Qed.

(** C4, as stated, fails: a response that parses and has both fields but
    an empty hosts list is not followed by a wait and a further attempt. *)
Lemma empty_hosts_list_is_not_retried :
  ~ (forall w version architecture s,
       quiet w ->
       incomplete (json_loads w (http w (n_http s))) = true ->
       exists rest,
         schedule (trace (allocate_node w version architecture s).2)
         = schedule (trace s) ++ Request :: Wait 60 :: rest).
Proof.
  intros H.
  destruct (H (world_of toy_loads [body_no_hosts; body_host1] [] [] true)
              "7" "x86_64" (__init__ None)) as [rest Hrest].
  - apply world_of_quiet.
  - vm_compute. reflexivity.
  - vm_compute in Hrest. discriminate Hrest.
Qed.

(** C4, amended: a response that cannot be parsed, or that lacks the hosts
    or the session field, is retried under the backoff sequence; a response
    that has both fields and an empty hosts list is not: after [k < 5]
    retried attempts it ends the allocation at once, with [(None, None)]
    and no further wait. *)
Theorem allocate_node_empty_hosts_ends_allocation
    w version architecture s k m ssid :
  quiet w ->
  (k < 5)%nat ->
  (forall i, (i < k)%nat ->
             unexpected (json_loads w (http w (n_http s + i))) = true) ->
  json_loads w (http w (n_http s + k)) = Some (JObj m) ->
  m !! "hosts" = Some (JArr []) ->
  m !! "ssid" = Some ssid ->
  exists s',
    allocate_node w version architecture s = (Ret (JNull, JNull), s')
    /\ sleeps (trace s') = sleeps (trace s) ++ take k backoff
    /\ schedule (trace s') =
         schedule (trace s) ++ retries (take k backoff) ++ [Request].
Proof.
  intros Hq Hk Hbad Hok Hh Hs. unfold allocate_node, bind.
  destruct (allocate_loop_break w
              (<["arch" := JStr architecture]> {["ver" := JStr version]})
              m backoff k None s Hq)
    as (s' & Hrun & Hsch & Hsl & Hn); eauto.
  eexists. rewrite Hrun, (extract_lease_no_hosts m) by assumption.
  split; [reflexivity|]. simpl. rewrite sleeps_app, schedule_app. simpl.
  rewrite !app_nil_r. auto.
Qed.

Lemma allocate_node_empty_hosts_ends_allocation_witness :
  let w := world_of toy_loads [pool_error; "{}"; body_no_hosts; body_host1] [] [] true in
  exists s',
    allocate_node w "7" "x86_64" (__init__ None) = (Ret (JNull, JNull), s')
    /\ sleeps (trace s') = sleeps (trace (__init__ None)) ++ take 2 backoff
    /\ schedule (trace s') =
         schedule (trace (__init__ None)) ++ retries (take 2 backoff) ++ [Request].
Proof.
  intros w.
  apply (allocate_node_empty_hosts_ends_allocation w "7" "x86_64" (__init__ None)
           2 lease_no_hosts (JStr "abc")).
  - apply world_of_quiet.
  - lia.
  - intros i Hi. destruct i as [|[|i]]; try (vm_compute; reflexivity). lia.
  - vm_compute. reflexivity.
  - vm_compute. reflexivity.
  - vm_compute. reflexivity.
Defined.

(** ** Remote commands *)

Lemma execute_remote_command_quiet w node command expected_rc artifacts_dir ignore_rc s :
  quiet w ->
  execute_remote_command w node command expected_rc artifacts_dir ignore_rc s =
  (if negb ignore_rc && negb (proc w (n_proc s) =? expected_rc)
   then Exc (Exception (unexpected_rc_message (proc w (n_proc s)) expected_rc))
   else Ret (proc w (n_proc s)),
   fetched w node artifacts_dir (spawned (command_wrapper node command) s)).
Proof.
  intros Hq. unfold execute_remote_command, bind at 1.
  rewrite execute_local_command_quiet by assumption.
  unfold bind at 1, get. unfold fetched, spawned, bind at 1.
  simpl (artifacts_storage _).
  destruct artifacts_dir as [remote|], (artifacts_storage s) as [local|];
    try (destruct (negb ignore_rc && negb (proc w (n_proc s) =? expected_rc)); reflexivity).
  unfold fetch_artifacts, bind at 1.
  rewrite execute_local_command_quiet by assumption.
  simpl (n_proc _).
  destruct (negb (proc w (S (n_proc s)) =? 0));
    destruct (negb ignore_rc && negb (proc w (n_proc s) =? expected_rc)); reflexivity.
Qed.

Lemma execs_app tr1 tr2 : execs (tr1 ++ tr2) = execs tr1 ++ execs tr2.
Proof. apply omap_app. Qed.

Lemma warnings_app tr1 tr2 : warnings (tr1 ++ tr2) = warnings tr1 ++ warnings tr2.
Proof. apply omap_app. Qed.

(** C5: with [ignore_rc] set, [execute_remote_command] returns the exit
    code of the remote command whatever it is; without it, an exit code
    other than [expected_rc] raises an exception whose message carries the
    code that was got and the code that was expected, and the expected
    exit code is returned. *)
Theorem execute_remote_command_exit_code_contract
    w node command expected_rc artifacts_dir ignore_rc s :
  quiet w ->
  let rc := proc w (n_proc s) in
  let r := (execute_remote_command w node command expected_rc artifacts_dir ignore_rc s).1 in
  (ignore_rc = true -> r = Ret rc)
  /\ (ignore_rc = false -> rc <> expected_rc ->
      r = Exc (Exception
                 ("Remote command exited with an unexpected return code (got: "
                  +:+ str_of_Z rc +:+ ", expected: " +:+ str_of_Z expected_rc
                  +:+ "), bailing out")))
  /\ (ignore_rc = false -> rc = expected_rc -> r = Ret rc).
Proof.
  intros Hq rc r. subst r.
  rewrite execute_remote_command_quiet by assumption. fold rc. simpl.
  split; [|split].
  - intros ->. reflexivity.
  - intros -> Hne. apply Z.eqb_neq in Hne. rewrite Hne. reflexivity.
  - intros -> He. apply Z.eqb_eq in He. rewrite He. reflexivity.
Qed.

Lemma execute_remote_command_exit_code_contract_witness :
  let w := world_of toy_loads [] [1] [] true in
  let s := __init__ None in
  let rc := proc w (n_proc s) in
  let r := (execute_remote_command w "host1" "false" 0 None false s).1 in
  (false = true -> r = Ret rc)
  /\ (false = false -> rc <> 0 ->
      r = Exc (Exception
                 ("Remote command exited with an unexpected return code (got: "
                  +:+ str_of_Z rc +:+ ", expected: " +:+ str_of_Z 0
                  +:+ "), bailing out")))
  /\ (false = false -> rc = 0 -> r = Ret rc).
Proof.
  intros w s.
  apply (execute_remote_command_exit_code_contract w "host1" "false" 0 None false s).
  apply world_of_quiet.
Defined.

(** C9: the artifact copy is attempted exactly when a remote artifacts
    path is given and a local artifacts directory is set; its failure
    leaves one warning in the log and nothing else: two runs that differ
    only in what the copy (and anything after it) returns end the same
    way, with the same exit code or the same exception. *)
Theorem artifact_fetch_is_best_effort
    w w' node command expected_rc artifacts_dir ignore_rc s :
  quiet w -> quiet w' ->
  proc w (n_proc s) = proc w' (n_proc s) ->
  let run := execute_remote_command w node command expected_rc artifacts_dir ignore_rc s in
  let run' := execute_remote_command w' node command expected_rc artifacts_dir ignore_rc s in
  execs (trace run.2) =
    execs (trace s) ++ command_wrapper node command ::
    match artifacts_dir, artifacts_storage s with
    | Some remote, Some local => [fetch_command node remote local]
    | _, _ => []
    end
  /\ warnings (trace run.2) =
       warnings (trace s) ++
       match artifacts_dir, artifacts_storage s with
       | Some _, Some _ =>
           if proc w (S (n_proc s)) =? 0 then [] else ["Fetching artifacts failed"]
       | _, _ => []
       end
  /\ run.1 = run'.1.
Proof.
  intros Hq Hq' Hrc run run'. subst run run'.
  rewrite !execute_remote_command_quiet by assumption.
  rewrite <- Hrc. split; [|split; [|reflexivity]].
  - unfold fetched. simpl.
    destruct artifacts_dir as [remote|], (artifacts_storage s) as [local|];
      simpl; rewrite ?execs_app; simpl; rewrite ?app_nil_r; try reflexivity.
    destruct (negb (proc w (S (n_proc s)) =? 0)); simpl;
      rewrite !execs_app; simpl; rewrite ?app_nil_r, <- ?app_assoc; reflexivity.
  - unfold fetched. simpl.
    destruct artifacts_dir as [remote|], (artifacts_storage s) as [local|];
      simpl; rewrite ?warnings_app; simpl; rewrite ?app_nil_r; try reflexivity.
    destruct (proc w (S (n_proc s)) =? 0); simpl;
      rewrite !warnings_app; simpl; rewrite ?app_nil_r; reflexivity.
Qed.

Lemma artifact_fetch_is_best_effort_witness :
  let w := world_of toy_loads [] [0; 1] [] true in
  let w' := world_of toy_loads [] [0; 0] [] true in
  let s := __init__ (Some "./artifacts_x") in
  let run := execute_remote_command w "host1" "make check" 0 (Some "~/logs*") false s in
  let run' := execute_remote_command w' "host1" "make check" 0 (Some "~/logs*") false s in
  execs (trace run.2) =
    execs (trace s) ++ command_wrapper "host1" "make check" ::
    match Some "~/logs*", artifacts_storage s with
    | Some remote, Some local => [fetch_command "host1" remote local]
    | _, _ => []
    end
  /\ warnings (trace run.2) =
       warnings (trace s) ++
       match Some "~/logs*", artifacts_storage s with
       | Some _, Some _ =>
           if proc w (S (n_proc s)) =? 0 then [] else ["Fetching artifacts failed"]
       | _, _ => []
       end
  /\ run.1 = run'.1.
Proof.
  intros w w' s.
  apply (artifact_fetch_is_best_effort w w' "host1" "make check" 0 (Some "~/logs*") false s).
  - apply world_of_quiet.
  - apply world_of_quiet.
  - reflexivity.
Defined.

(** ** Reboot *)

Lemma failed_probes_S node k :
  failed_probes node (S k) =
  EExec (ping_command node) :: ESleep 15 :: failed_probes node k.
Proof. reflexivity. Qed.

(** The first successful probe ends the loop. *)
Lemma ping_loop_reachable w node : forall tries k rc s,
  quiet w ->
  (k < length tries)%nat ->
  (forall i, (i < k)%nat -> proc w (n_proc s + i) <> 0) ->
  proc w (n_proc s + k) = 0 ->
  exists s',
    ping_loop w tries (ping_command node) rc s = (Ret (Some 0), s')
    /\ trace s' = trace s ++ failed_probes node k ++ [EExec (ping_command node)].
Proof.
  induction tries as [|t tries IH]; intros k rc s Hq Hk Hbad Hok.
  - simpl in Hk. lia.
  - simpl. unfold bind at 1. rewrite execute_local_command_quiet by assumption.
    destruct k as [|k].
    + rewrite Nat.add_0_r in Hok. rewrite Hok. simpl. eexists. split; reflexivity.
    + assert (H0 : proc w (n_proc s) <> 0).
      { specialize (Hbad 0%nat). rewrite Nat.add_0_r in Hbad. apply Hbad. lia. }
      apply Z.eqb_neq in H0. rewrite H0.
      unfold bind at 1. rewrite time_sleep_quiet by assumption.
      destruct (IH k (Some (proc w (n_proc s)))
                  (next_block (emit (ESleep 15)
                     (next_block (next_proc (emit (EExec (ping_command node)) s))))) Hq)
        as (s' & Hrun & Htr).
      * simpl in Hk. lia.
      * intros i Hi. simpl. rewrite <- Nat.add_succ_r. apply Hbad. lia.
      * simpl. rewrite <- Nat.add_succ_r. assumption.
      * exists s'. split; [exact Hrun|]. rewrite Htr, failed_probes_S. simpl.
        rewrite <- !app_assoc. reflexivity.
Qed.

(** Failed probes only: the loop uses up its tries and leaves a non-zero
    exit code in [rc]. *)
Lemma ping_loop_unreachable w node : forall tries rc s,
  quiet w ->
  (forall i, (i < length tries)%nat -> proc w (n_proc s + i) <> 0) ->
  exists rc' s',
    ping_loop w tries (ping_command node) rc s = (Ret rc', s')
    /\ trace s' = trace s ++ failed_probes node (length tries)
    /\ (tries <> [] -> exists z, rc' = Some z /\ z <> 0).
Proof.
  induction tries as [|t tries IH]; intros rc s Hq Hbad.
  - exists rc, s. simpl. rewrite app_nil_r. repeat split; auto. congruence.
  - simpl ping_loop. unfold bind at 1. rewrite execute_local_command_quiet by assumption.
    assert (H0 : proc w (n_proc s) <> 0).
    { specialize (Hbad 0%nat). rewrite Nat.add_0_r in Hbad. apply Hbad. simpl. lia. }
    pose proof H0 as H0'. apply Z.eqb_neq in H0'. rewrite H0'.
    unfold bind at 1. rewrite time_sleep_quiet by assumption.
    destruct (IH (Some (proc w (n_proc s)))
                (next_block (emit (ESleep 15)
                   (next_block (next_proc (emit (EExec (ping_command node)) s))))) Hq)
      as (rc' & s' & Hrun & Htr & Hrc).
    + intros i Hi. simpl. rewrite <- Nat.add_succ_r. apply Hbad. simpl. lia.
    + exists rc', s'. split; [exact Hrun|]. split.
      * rewrite Htr. simpl length. rewrite failed_probes_S. simpl.
        rewrite <- !app_assoc. reflexivity.
      * intros _. destruct tries as [|t' tries'].
        -- simpl in Hrun. injection Hrun as <- _. eauto.
        -- apply Hrc. congruence.
Qed.

(** Either every one of the first [n] probes fails, or there is a first
    one that succeeds. *)
Lemma first_success (f : nat -> Z) (n : nat) :
  (forall i, (i < n)%nat -> f i <> 0)
  \/ exists k, (k < n)%nat /\ (forall i, (i < k)%nat -> f i <> 0) /\ f k = 0.
Proof.
  induction n as [|n [IH | (k & Hk & Hbad & Hok)]].
  - left. intros i Hi. lia.
  - destruct (Z.eq_dec (f n) 0) as [Hz | Hnz].
    + right. exists n. repeat split; auto.
    + left. intros i Hi. destruct (Nat.eq_dec i n) as [-> | Hne]; [assumption|].
      apply IH. lia.
  - right. exists k. repeat split; auto.
Qed.

Lemma reboot_node_prelude w node s :
  quiet w ->
  reboot_node w node s =
  (rc <- ping_loop w (seq 0 10) (ping_command node) None ;;
   rc <- read_var (UnboundLocalError "rc") rc ;;
   (if negb (rc =? 0) then raise (Exception reboot_timeout_message) else ret tt) ;;
   time_sleep w 30)
    (next_block (emit (ESleep 30) (spawned (command_wrapper node "systemctl reboot") s))).
Proof.
  intros Hq. unfold reboot_node. unfold bind at 1.
  rewrite execute_remote_command_quiet by assumption. simpl.
  unfold bind at 1. rewrite time_sleep_quiet by assumption. reflexivity.
Qed.

(** C6: [reboot_node] waits 30 s after the reboot command before the first
    probe; it probes at most 10 times, with 15 s after each failed probe;
    the first successful probe is the last one, and is followed by a 30 s
    settle delay before the function returns; the timeout exception is
    raised if and only if all 10 probes fail. *)
Theorem reboot_node_probing w node s :
  quiet w ->
  let ping i := proc w (n_proc s + 1 + i) in
  (forall k, (k < 10)%nat ->
     (forall i, (i < k)%nat -> ping i <> 0) -> ping k = 0 ->
     exists s',
       reboot_node w node s = (Ret tt, s')
       /\ trace s' = trace s ++ reboot_prelude node ++ failed_probes node k
                     ++ [EExec (ping_command node); ESleep 30])
  /\ ((forall i, (i < 10)%nat -> ping i <> 0) ->
      exists s',
        reboot_node w node s = (Exc (Exception reboot_timeout_message), s')
        /\ trace s' = trace s ++ reboot_prelude node ++ failed_probes node 10)
  /\ ((reboot_node w node s).1 = Exc (Exception reboot_timeout_message)
      <-> forall i, (i < 10)%nat -> ping i <> 0).
Proof.
  intros Hq ping.
  set (s1 := next_block (emit (ESleep 30)
               (spawned (command_wrapper node "systemctl reboot") s))).
  assert (Hping : forall i, proc w (n_proc s1 + i) = ping i).
  { intros i. unfold ping. simpl. f_equal. lia. }
  assert (Hok : forall k, (k < 10)%nat ->
     (forall i, (i < k)%nat -> ping i <> 0) -> ping k = 0 ->
     exists s',
       reboot_node w node s = (Ret tt, s')
       /\ trace s' = trace s ++ reboot_prelude node ++ failed_probes node k
                     ++ [EExec (ping_command node); ESleep 30]).
  { intros k Hk Hbad Hgood.
    destruct (ping_loop_reachable w node (seq 0 10) k None s1 Hq)
      as (s' & Hrun & Htr).
    - rewrite length_seq. exact Hk.
    - intros i Hi. rewrite Hping. auto.
    - rewrite Hping. exact Hgood.
    - eexists. rewrite reboot_node_prelude by assumption. fold s1.
      rewrite (bind_Ret _ _ _ _ _ Hrun).
      rewrite (bind_Ret _ _ _ 0 s') by reflexivity.
      rewrite (bind_Ret _ _ _ tt s') by reflexivity.
      rewrite time_sleep_quiet by assumption. split; [reflexivity|].
      simpl. rewrite Htr. simpl. rewrite <- !app_assoc. reflexivity. }
  assert (Hko : (forall i, (i < 10)%nat -> ping i <> 0) ->
      exists s',
        reboot_node w node s = (Exc (Exception reboot_timeout_message), s')
        /\ trace s' = trace s ++ reboot_prelude node ++ failed_probes node 10).
  { intros Hbad.
    destruct (ping_loop_unreachable w node (seq 0 10) None s1 Hq)
      as (rc & s' & Hrun & Htr & Hrc).
    - rewrite length_seq. intros i Hi. rewrite Hping. auto.
    - destruct Hrc as (z & -> & Hz); [discriminate|].
      exists s'. rewrite reboot_node_prelude by assumption. fold s1.
      rewrite (bind_Ret _ _ _ _ _ Hrun).
      rewrite (bind_Ret _ _ _ z s') by reflexivity.
      apply Z.eqb_neq in Hz. rewrite Hz. split; [reflexivity|].
      rewrite Htr, length_seq. simpl. rewrite <- !app_assoc. reflexivity. }
  split; [exact Hok|]. split; [exact Hko|]. split.
  - intros Hraise. destruct (first_success ping 10) as [Hall | (k & Hk & Hbad & Hgood)].
    + exact Hall.
    + destruct (Hok k Hk Hbad Hgood) as (s' & Hrun & _).
      rewrite Hrun in Hraise. discriminate Hraise.
  - intros Hall. destruct (Hko Hall) as (s' & Hrun & _). rewrite Hrun. reflexivity.
Qed.

Lemma reboot_node_probing_witness :
  let w := world_of toy_loads [] [255; 1; 1; 0] [] true in
  let s := __init__ None in
  let ping i := proc w (n_proc s + 1 + i) in
  (forall k, (k < 10)%nat ->
     (forall i, (i < k)%nat -> ping i <> 0) -> ping k = 0 ->
     exists s',
       reboot_node w "host1" s = (Ret tt, s')
       /\ trace s' = trace s ++ reboot_prelude "host1" ++ failed_probes "host1" k
                     ++ [EExec (ping_command "host1"); ESleep 30])
  /\ ((forall i, (i < 10)%nat -> ping i <> 0) ->
      exists s',
        reboot_node w "host1" s = (Exc (Exception reboot_timeout_message), s')
        /\ trace s' = trace s ++ reboot_prelude "host1" ++ failed_probes "host1" 10)
  /\ ((reboot_node w "host1" s).1 = Exc (Exception reboot_timeout_message)
      <-> forall i, (i < 10)%nat -> ping i <> 0).
Proof.
  intros w s.
  apply (reboot_node_probing w "host1" s).
  apply world_of_quiet.
Defined.

(** ** What a computation leaves unchanged *)

Section Preservation.

Context {B : Type} (f : st -> B) (harmless : event -> bool).

Hypothesis f_emit : forall e s, harmless e = true -> f (emit e s) = f s.
Hypothesis f_next_http : forall s, f (next_http s) = f s.
Hypothesis f_next_proc : forall s, f (next_proc s) = f s.
Hypothesis f_next_block : forall s, f (next_block s) = f s.
Hypothesis harmless_other : forall e, is_release e = false -> harmless e = true.

Variable w : world.

Lemma preserves_ret {A} (a : A) : preserves f (ret a).
Proof. intros s. reflexivity. Qed.
#[local] Hint Resolve preserves_ret : preserves.


Lemma preserves_raise {A} e : preserves f (@raise A e).
Proof. intros s. reflexivity. Qed.
#[local] Hint Resolve preserves_raise : preserves.


Lemma preserves_get {A} (g : st -> A) : preserves f (get g).
Proof. intros s. reflexivity. Qed.
#[local] Hint Resolve preserves_get : preserves.


Lemma preserves_read_var {A} e (v : option A) : preserves f (read_var e v).
Proof. destruct v; intros s; reflexivity. Qed.
#[local] Hint Resolve preserves_read_var : preserves.


Lemma preserves_modify g : (forall s, f (g s) = f s) -> preserves f (modify g).
Proof. intros H s. apply H. Qed.
#[local] Hint Resolve preserves_modify : preserves.


Lemma preserves_bind {A C} (m : M A) (k : A -> M C) :
  preserves f m -> (forall a, preserves f (k a)) -> preserves f (bind m k).
Proof.
  intros Hm Hk s. unfold bind. specialize (Hm s).
  destruct (m s) as [[a|e|sg] s']; simpl in *; [|assumption..].
  rewrite (Hk a s'). assumption.
Qed.

(** Sequences, case distinctions and calls of computations known to
    preserve [f]. *)
Ltac preserves_tac :=
  repeat first
    [ solve [eauto with preserves]
    | apply preserves_bind; [|intros ?]
    | match goal with
      | |- preserves _ (match ?x with _ => _ end) => destruct x
      | |- preserves _ (if ?b then _ else _) => destruct b
      end ].

Lemma preserves_try_except {A} (body : M A) handles handler :
  preserves f body -> (forall e, preserves f (handler e)) ->
  preserves f (try_except body handles handler).
Proof.
  intros Hb Hh s. unfold try_except. specialize (Hb s).
  destruct (body s) as [[a|e|sg] s']; simpl in *; [assumption| |assumption].
  destruct (handles e); [|assumption]. rewrite (Hh e s'). assumption.
Qed.
#[local] Hint Resolve preserves_try_except : preserves.


Lemma preserves_try_finally {A} (body : M A) cleanup :
  preserves f body -> preserves f cleanup ->
  preserves f (try_finally body cleanup).
Proof.
  intros Hb Hc s. unfold try_finally. specialize (Hb s).
  destruct (body s) as [[a|e|sg] s']; simpl in *; [| |assumption];
    specialize (Hc s'); destruct (cleanup s') as [[[]|e'|sg'] s'']; simpl in *;
    congruence.
Qed.
#[local] Hint Resolve preserves_try_finally : preserves.


Lemma preserves_emit e : harmless e = true -> preserves f (modify (emit e)).
Proof. intros H. apply preserves_modify. intros s. apply f_emit, H. Qed.
#[local] Hint Resolve preserves_emit : preserves.


Lemma preserves_log lvl msg : preserves f (log lvl msg).
Proof. apply preserves_emit, harmless_other. reflexivity. Qed.
#[local] Hint Resolve preserves_log : preserves.


Lemma preserves_handle_signal sg : preserves f (handle_signal sg).
Proof.
  apply preserves_bind; [|intros _; apply preserves_raise].
  apply preserves_emit, harmless_other. reflexivity.
Qed.
#[local] Hint Resolve preserves_handle_signal : preserves.


Lemma preserves_deliver due : preserves f (deliver due).
Proof.
  destruct due as [sg|]; intros s; simpl; [|reflexivity].
  destruct (disposition_of s sg); [reflexivity | reflexivity | apply preserves_handle_signal].
Qed.
#[local] Hint Resolve preserves_deliver : preserves.


Lemma preserves_checkpoint : preserves f (checkpoint w).
Proof. intros s. unfold checkpoint, blocking. rewrite preserves_deliver. apply f_next_block. Qed.
#[local] Hint Resolve preserves_checkpoint : preserves.


Lemma preserves_blocking : preserves f (blocking w).
Proof. intros s. unfold blocking. rewrite preserves_deliver. apply f_next_block. Qed.
#[local] Hint Resolve preserves_blocking : preserves.


Lemma preserves_time_sleep t : preserves f (time_sleep w t).
Proof.
  apply preserves_bind; [|intros _; apply preserves_blocking].
  apply preserves_emit, harmless_other. reflexivity.
Qed.
#[local] Hint Resolve preserves_time_sleep : preserves.


Lemma preserves_requests_get url payload :
  harmless (EHttp url payload) = true -> preserves f (requests_get w url payload).
Proof.
  intros H. unfold requests_get.
  repeat (apply preserves_bind; [|intros ?]);
    auto using preserves_get, preserves_emit, preserves_modify,
               preserves_blocking, preserves_ret.
Qed.
#[local] Hint Resolve preserves_requests_get : preserves.


Lemma preserves_execute_local_command command :
  preserves f (execute_local_command w command).
Proof.
  unfold execute_local_command.
  repeat (apply preserves_bind; [|intros ?]);
    auto using preserves_get, preserves_modify, preserves_blocking, preserves_ret.
Qed.
#[local] Hint Resolve preserves_execute_local_command : preserves.


Lemma preserves_py_contains needle j : preserves f (py_contains needle j).
Proof. destruct j; intros x; reflexivity. Qed.
#[local] Hint Resolve preserves_py_contains : preserves.


Lemma preserves_py_getitem_str j key : preserves f (py_getitem_str j key).
Proof.
  destruct j; try (intros x; reflexivity). simpl.
  destruct (m !! key); intros x; reflexivity.
Qed.
#[local] Hint Resolve preserves_py_getitem_str : preserves.


Lemma preserves_py_getitem_int j i : preserves f (py_getitem_int j i).
Proof.
  destruct j; try (intros x; reflexivity); simpl.
  - destruct (String.get i s); intros x; reflexivity.
  - destruct (l !! i); intros x; reflexivity.
Qed.
#[local] Hint Resolve preserves_py_getitem_int : preserves.


Lemma preserves_py_iter j : preserves f (py_iter j).
Proof. destruct j; intros x; reflexivity. Qed.
#[local] Hint Resolve preserves_py_iter : preserves.


Lemma preserves_has_fields j : preserves f (has_fields j).
Proof.
  apply preserves_bind; [apply preserves_py_contains|].
  intros []; [apply preserves_py_contains | apply preserves_ret].
Qed.
#[local] Hint Resolve preserves_has_fields : preserves.


Lemma preserves_node_get payload :
  preserves f (_execute_api_command w "/Node/get" payload).
Proof. apply preserves_requests_get, harmless_other. reflexivity. Qed.
#[local] Hint Resolve preserves_node_get : preserves.


Lemma preserves_inventory payload :
  preserves f (_execute_api_command w "/Inventory" payload).
Proof. apply preserves_requests_get, harmless_other. reflexivity. Qed.
#[local] Hint Resolve preserves_inventory : preserves.


Lemma preserves_attempt payload jroot : preserves f (attempt w payload jroot).
Proof.
  unfold attempt. preserves_tac.
Qed.
#[local] Hint Resolve preserves_attempt : preserves.


Lemma preserves_allocate_loop timeouts payload :
  forall jroot, preserves f (allocate_loop w timeouts payload jroot).
Proof.
  induction timeouts as [|t rest IH]; intros jroot; simpl; preserves_tac.
Qed.
#[local] Hint Resolve preserves_allocate_loop : preserves.


Lemma preserves_extract_lease jroot : preserves f (extract_lease jroot).
Proof.
  unfold extract_lease. apply preserves_try_except; [|intros ?]; preserves_tac.
Qed.
#[local] Hint Resolve preserves_extract_lease : preserves.


Lemma preserves_allocate_node version architecture :
  preserves f (allocate_node w version architecture).
Proof.
  unfold allocate_node. apply preserves_bind.
  - apply preserves_allocate_loop.
  - intros jroot. apply preserves_extract_lease.
Qed.
#[local] Hint Resolve preserves_allocate_node : preserves.


Lemma preserves_nodes_of items : preserves f (nodes_of items).
Proof.
  induction items as [|x items IH]; simpl; [apply preserves_ret|].
  repeat (apply preserves_bind; [|intros ?]);
    auto using preserves_py_getitem_int, preserves_ret.
Qed.
#[local] Hint Resolve preserves_nodes_of : preserves.


Lemma preserves_allocated_nodes verbose : preserves f (allocated_nodes w verbose).
Proof.
  unfold allocated_nodes.
  apply preserves_bind; [apply preserves_inventory|]. intros res.
  apply preserves_bind; [apply preserves_read_var|]. intros jroot.
  apply preserves_bind; [apply preserves_py_iter|]. intros items.
  apply preserves_nodes_of.
Qed.
#[local] Hint Resolve preserves_allocated_nodes : preserves.


Lemma preserves_fetch_artifacts node remote_dir local_dir :
  preserves f (fetch_artifacts w node remote_dir local_dir).
Proof. apply preserves_execute_local_command. Qed.
#[local] Hint Resolve preserves_fetch_artifacts : preserves.


Lemma preserves_upload_file node local_source remote_target :
  preserves f (upload_file w node local_source remote_target).
Proof. apply preserves_execute_local_command. Qed.
#[local] Hint Resolve preserves_upload_file : preserves.


Lemma preserves_execute_remote_command node command expected_rc artifacts_dir ignore_rc :
  preserves f (execute_remote_command w node command expected_rc artifacts_dir ignore_rc).
Proof.
  unfold execute_remote_command. preserves_tac.
Qed.
#[local] Hint Resolve preserves_execute_remote_command : preserves.


Lemma preserves_ping_loop tries command :
  forall rc, preserves f (ping_loop w tries command rc).
Proof.
  induction tries as [|t tries IH]; intros rc; simpl; preserves_tac.
Qed.
#[local] Hint Resolve preserves_ping_loop : preserves.


Lemma preserves_reboot_node node : preserves f (reboot_node w node).
Proof.
  unfold reboot_node. preserves_tac.
Qed.
#[local] Hint Resolve preserves_reboot_node : preserves.


Lemma preserves_hostname node : preserves f (hostname node).
Proof. destruct node; intros x; reflexivity. Qed.
#[local] Hint Resolve preserves_hostname : preserves.


Lemma preserves_phases args node : preserves f (phases w args node).
Proof.
  unfold phases. preserves_tac.
Qed.
#[local] Hint Resolve preserves_phases : preserves.


(** *** Computations that release *)

Section Release.

Hypothesis harmless_all : forall e, harmless e = true.

Lemma preserves_free_session ssid : preserves f (free_session w ssid).
Proof.
  unfold free_session, _execute_api_command.
  apply preserves_bind; [|intros _; apply preserves_ret].
  apply preserves_requests_get, harmless_all.
Qed.
#[local] Hint Resolve preserves_free_session : preserves.


Lemma preserves_free_sessions_of nodes : preserves f (free_sessions_of w nodes).
Proof.
  induction nodes as [|node nodes IH]; simpl; [apply preserves_ret|].
  apply preserves_bind; [apply preserves_free_session | intros _; apply IH].
Qed.
#[local] Hint Resolve preserves_free_sessions_of : preserves.


Lemma preserves_free_all_nodes : preserves f (free_all_nodes w).
Proof.
  unfold free_all_nodes. apply preserves_bind.
  - apply preserves_allocated_nodes.
  - intros nodes. apply preserves_free_sessions_of.
Qed.
#[local] Hint Resolve preserves_free_all_nodes : preserves.


End Release.

(** *** The script around the phases *)

Section ScriptPreservation.

Hypothesis f_set_disposition : forall sg d s, f (set_disposition sg d s) = f s.
Hypothesis f_set_artifacts_storage : forall a s, f (set_artifacts_storage a s) = f s.
Hypothesis f_set_v_lease : forall node ssid s, f (set_v_lease node ssid s) = f s.
Hypothesis f_set_v_artifacts_dir : forall d s, f (set_v_artifacts_dir d s) = f s.
Hypothesis f_set_v_rc : forall rc s, f (set_v_rc rc s) = f s.

Variable args : Args.t.

Lemma preserves_signal_signal sg d : preserves f (signal_signal sg d).
Proof.
  apply preserves_bind.
  - apply preserves_emit, harmless_other. reflexivity.
  - intros _. apply preserves_modify. intros s. apply f_set_disposition.
Qed.
#[local] Hint Resolve preserves_signal_signal : preserves.


Lemma preserves_workflow node : preserves f (workflow w args node).
Proof.
  unfold workflow, setup_artifacts_storage. preserves_tac.
Qed.
#[local] Hint Resolve preserves_workflow : preserves.


Lemma preserves_main_try : preserves f (main_try w args).
Proof.
  unfold main_try, main_try_body, install_handlers. preserves_tac.
Qed.
#[local] Hint Resolve preserves_main_try : preserves.


Lemma preserves_main_except e : preserves f (main_except w e).
Proof.
  unfold main_except. preserves_tac.
Qed.
#[local] Hint Resolve preserves_main_except : preserves.


Lemma preserves_index_step : preserves f (index_step w args).
Proof.
  unfold index_step. preserves_tac.
Qed.
#[local] Hint Resolve preserves_index_step : preserves.


Lemma preserves_mask_signals : preserves f (mask_signals w).
Proof.
  unfold mask_signals. preserves_tac.
Qed.
#[local] Hint Resolve preserves_mask_signals : preserves.


Lemma preserves_restore_signals : preserves f (restore_signals w).
Proof.
  unfold restore_signals. preserves_tac.
Qed.
#[local] Hint Resolve preserves_restore_signals : preserves.


(** The whole script preserves what no request changes. *)
Lemma preserves_main : (forall e, harmless e = true) -> preserves f (main w args).
Proof.
  intros Hall.
  assert (Hfree : forall ssid, preserves f (free_session w ssid))
    by (intros; apply preserves_free_session, Hall).
  assert (Hfreeall : preserves f (free_all_nodes w))
    by (apply preserves_free_all_nodes, Hall).
  assert (Hrelease : preserves f (release_step w))
    by (unfold release_step; preserves_tac).
  assert (Hfinally : preserves f (main_finally w args))
    by (unfold main_finally; preserves_tac).
  assert (Hjob : preserves f (main_job w args)).
  { unfold main_job, sys_exit. preserves_tac. }
  unfold main, sys_exit. preserves_tac.
Qed.

End ScriptPreservation.

End Preservation.

(** ** The guaranteed-release step *)

Lemma bind_inv {A C} (m : M A) (k : A -> M C) s r s2 :
  bind m k s = (r, s2) ->
  (exists a s1, m s = (Ret a, s1) /\ k a s1 = (r, s2))
  \/ (exists e, m s = (Exc e, s2) /\ r = Exc e)
  \/ (exists sg, m s = (Killed sg, s2) /\ r = Killed sg).
Proof.
  unfold bind. destruct (m s) as [[a|e|sg] s1]; intros H.
  - left. eauto.
  - right. left. injection H as <- <-. eauto.
  - right. right. injection H as <- <-. eauto.
Qed.

(** What follows a computation that leaves the state alone does not show
    in the final state. *)
Lemma bind_snd_stateless {A C} (m : M A) (k : A -> M C) s :
  (forall a s', (k a s').2 = s') -> (bind m k s).2 = (m s).2.
Proof.
  intros Hk. unfold bind. destruct (m s) as [[a|e|sg] s1]; simpl; auto.
Qed.

(** What follows a computation does not show in an observation that it
    preserves. *)
Lemma bind_snd_preserves {A C B} (f : st -> B) (m : M A) (k : A -> M C) s :
  (forall a, preserves f (k a)) -> f (bind m k s).2 = f (m s).2.
Proof.
  intros Hk. unfold bind. destruct (m s) as [[a|e|sg] s1]; simpl;
    [apply Hk | reflexivity..].
Qed.

(** *** Delivery points *)

(** Nothing is due. *)
Lemma blocking_calm w s :
  sigs w (n_block s) = None -> blocking w s = (Ret tt, next_block s).
Proof. intros H. unfold blocking. rewrite H. reflexivity. Qed.

Lemma checkpoint_calm w s :
  sigs w (n_block s) = None -> checkpoint w s = (Ret tt, next_block s).
Proof. apply blocking_calm. Qed.

(** A delivery point that the process passes leaves no trace: the signal
    that was due, if any, was ignored. *)
Lemma deliver_Ret due s s' : deliver due s = (Ret tt, s') -> s' = s.
Proof.
  destruct due as [sg|]; simpl; [|intros H; injection H as <-; reflexivity].
  destruct (disposition_of s sg); intros H;
    [discriminate H | injection H as <-; reflexivity | discriminate H].
Qed.

Lemma checkpoint_Ret w s s' : checkpoint w s = (Ret tt, s') -> s' = next_block s.
Proof. apply deliver_Ret. Qed.

(** While both signals are ignored, a delivery point is passed whatever
    is due. *)
Lemma deliver_ignored due s : ignoring s -> deliver due s = (Ret tt, s).
Proof.
  intros [Ht Hh]. destruct due as [[]|]; simpl; rewrite ?Ht, ?Hh; reflexivity.
Qed.

Lemma blocking_ignored w s : ignoring s -> blocking w s = (Ret tt, next_block s).
Proof. intros H. unfold blocking. apply deliver_ignored. exact H. Qed.

Lemma checkpoint_ignored w s : ignoring s -> checkpoint w s = (Ret tt, next_block s).
Proof. apply blocking_ignored. Qed.

Lemma calm_one w n m i :
  calm w n [m] -> (n <= i)%nat -> i <> m -> sigs w i = None.
Proof.
  intros H Hle Hne. apply H; [exact Hle|]. rewrite list_elem_of_singleton. exact Hne.
Qed.

Lemma calm_nil w n i : calm w n [] -> (n <= i)%nat -> sigs w i = None.
Proof. intros H Hle. apply H; [exact Hle|]. apply not_elem_of_nil. Qed.

Lemma quiet_calm w n but : quiet w -> calm w n but.
Proof. intros Hq i _ _. apply Hq. Qed.

(** *** Masking, releasing, restoring *)

Lemma mask_signals_Ret w s s' : mask_signals w s = (Ret tt, s') -> s' = masked s.
Proof.
  unfold mask_signals. intros H.
  apply bind_inv in H as [([] & s1 & H1 & H) | [(e & _ & He) | (sg & _ & Hk)]];
    [|discriminate..].
  apply checkpoint_Ret in H1 as ->.
  rewrite (bind_Ret _ _ _ tt
             (set_disposition SIGTERM SIG_IGN (emit (ESignal SIGTERM SIG_IGN) (next_block s))))
    in H by reflexivity.
  apply bind_inv in H as [([] & s2 & H2 & H) | [(e & _ & He) | (sg & _ & Hk)]];
    [|discriminate..].
  apply checkpoint_Ret in H2 as ->.
  injection H as <-. reflexivity.
Qed.

Lemma mask_signals_calm w s :
  sigs w (n_block s) = None -> sigs w (S (n_block s)) = None ->
  mask_signals w s = (Ret tt, masked s).
Proof.
  intros H0 H1. unfold mask_signals.
  rewrite (bind_Ret _ _ _ tt (next_block s)) by (apply checkpoint_calm; exact H0).
  rewrite (bind_Ret _ _ _ tt
             (set_disposition SIGTERM SIG_IGN (emit (ESignal SIGTERM SIG_IGN) (next_block s))))
    by reflexivity.
  rewrite (bind_Ret _ _ _ tt
             (next_block (set_disposition SIGTERM SIG_IGN
                            (emit (ESignal SIGTERM SIG_IGN) (next_block s)))))
    by (apply checkpoint_calm; exact H1).
  reflexivity.
Qed.

Lemma ignoring_masked s : ignoring (masked s).
Proof. split; reflexivity. Qed.

Lemma free_session_masked w ssid s :
  ignoring s ->
  free_session w ssid s = (Ret tt, requested_release w ssid s).
Proof.
  intros Hi.
  unfold free_session, _execute_api_command, requests_get, bind, modify, get.
  rewrite blocking_ignored by exact Hi. reflexivity.
Qed.

(** Line 469 makes SIGTERM deadly again: one that is due in front of line
    470 ends the process. *)
Lemma restore_signals_ignoring w s :
  ignoring s ->
  restore_signals w s =
  match sigs w (S (n_block s)) with
  | Some SIGTERM => (Killed SIGTERM, half_restored s)
  | _ => (Ret tt, restored s)
  end.
Proof.
  intros Hi. unfold restore_signals.
  rewrite (bind_Ret _ _ _ tt (next_block s)) by (apply checkpoint_ignored; exact Hi).
  rewrite (bind_Ret _ _ _ tt
             (set_disposition SIGTERM SIG_DFL (emit (ESignal SIGTERM SIG_DFL) (next_block s))))
    by reflexivity.
  destruct Hi as [Ht Hh].
  unfold bind, checkpoint, blocking, restored, half_restored. simpl n_block.
  destruct (sigs w (S (n_block s))) as [[]|]; simpl; rewrite ?Hh; reflexivity.
Qed.

Lemma release_step_masked w ssid s s1 :
  mask_signals w s = (Ret tt, s1) ->
  v_ssid s = Some ssid ->
  release_step w s = restore_signals w (requested_release w ssid s1).
Proof.
  intros Hm Hv. pose proof (mask_signals_Ret _ _ _ Hm) as ->.
  unfold release_step. rewrite (bind_Ret _ _ _ _ _ Hm).
  rewrite (bind_Ret _ _ _ (Some ssid) (masked s))
    by (unfold get; simpl; rewrite Hv; reflexivity).
  rewrite (bind_Ret _ _ _ ssid (masked s)) by reflexivity.
  rewrite (bind_Ret _ _ _ tt (requested_release w ssid (masked s)))
    by (apply free_session_masked, ignoring_masked).
  reflexivity.
Qed.

Lemma release_step_unbound w s s1 :
  mask_signals w s = (Ret tt, s1) ->
  v_ssid s = None ->
  release_step w s = (Exc (NameError "ssid"), s1).
Proof.
  intros Hm Hv. pose proof (mask_signals_Ret _ _ _ Hm) as ->.
  unfold release_step. rewrite (bind_Ret _ _ _ _ _ Hm).
  rewrite (bind_Ret _ _ _ None (masked s)) by (unfold get; simpl; rewrite Hv; reflexivity).
  reflexivity.
Qed.

(** When nothing is due in front of the calls that change the
    dispositions, the release step runs to its end, whatever is due during
    the request. *)
Lemma release_step_bound w ssid s :
  v_ssid s = Some ssid ->
  (forall i, (n_block s <= i)%nat -> i <> (n_block s + 2)%nat -> sigs w i = None) ->
  release_step w s = (Ret tt, released w ssid s).
Proof.
  intros Hv Hcalm.
  rewrite (release_step_masked w ssid s (masked s)); [| |exact Hv].
  - rewrite restore_signals_ignoring by (split; reflexivity).
    unfold released. simpl n_block. rewrite Hcalm by lia. reflexivity.
  - apply mask_signals_calm; apply Hcalm; lia.
Qed.

(** *** The release requests of a job *)

Lemma releases_app tr1 tr2 : releases (tr1 ++ tr2) = releases tr1 ++ releases tr2.
Proof. unfold releases, requests_to. rewrite omap_app, fmap_app. reflexivity. Qed.

Lemma releases_other e : is_release e = false -> releases [e] = [].
Proof.
  unfold releases, requests_to, is_release. destruct e; try reflexivity.
  simpl. intros ->. reflexivity.
Qed.

Lemma releases_release_request w ssid : releases [release_request w ssid] = [ssid].
Proof. reflexivity. Qed.

Lemma releases_released w ssid s :
  releases (trace (released w ssid s)) = releases (trace s) ++ [ssid].
Proof.
  unfold released, restored, half_restored, requested_release, masked. simpl.
  rewrite <- !app_assoc. simpl. rewrite releases_app. reflexivity.
Qed.

Lemma releases_emit_other e s :
  negb (is_release e) = true ->
  releases (trace (emit e s)) = releases (trace s).
Proof.
  intros H. apply negb_true_iff in H. simpl.
  rewrite releases_app, (releases_other e H), app_nil_r. reflexivity.
Qed.

Lemma harmless_negb e : is_release e = false -> negb (is_release e) = true.
Proof. intros ->. reflexivity. Qed.

Lemma no_release_main_try w args : no_release (main_try w args).
Proof.
  apply (preserves_main_try _ (fun e => negb (is_release e)));
    auto using releases_emit_other, harmless_negb.
Qed.

Lemma no_release_main_except w e : no_release (main_except w e).
Proof.
  apply (preserves_main_except _ (fun e => negb (is_release e)));
    auto using releases_emit_other, harmless_negb.
Qed.

Lemma no_release_index_step w args : no_release (index_step w args).
Proof.
  apply (preserves_index_step _ (fun e => negb (is_release e)));
    auto using releases_emit_other, harmless_negb.
Qed.

Lemma no_release_checkpoint w : no_release (checkpoint w).
Proof.
  apply (preserves_checkpoint _ (fun e => negb (is_release e)));
    auto using releases_emit_other, harmless_negb.
Qed.

Lemma no_release_mask_signals w : no_release (mask_signals w).
Proof.
  apply (preserves_mask_signals _ (fun e => negb (is_release e)));
    auto using releases_emit_other, harmless_negb.
Qed.

Lemma no_release_restore_signals w : no_release (restore_signals w).
Proof.
  apply (preserves_restore_signals _ (fun e => negb (is_release e)));
    auto using releases_emit_other, harmless_negb.
Qed.

Lemma script_vars_allocate_node w version architecture :
  preserves script_vars (allocate_node w version architecture).
Proof. apply (preserves_allocate_node _ (fun _ => true)); auto. Qed.

Lemma script_vars_phases w args node : preserves script_vars (phases w args node).
Proof. apply (preserves_phases _ (fun _ => true)); auto. Qed.

Lemma script_vars_index_step w args : preserves script_vars (index_step w args).
Proof. apply (preserves_index_step _ (fun _ => true)); auto. Qed.

Lemma script_vars_checkpoint w : preserves script_vars (checkpoint w).
Proof. apply (preserves_checkpoint _ (fun _ => true)); auto. Qed.

(** The release step sends its request if and only if the two calls that
    mask the signals are made and [ssid] is bound. *)
Lemma release_step_releases w s :
  releases (trace (release_step w s).2) =
  releases (trace s) ++
  match (mask_signals w s).1 with
  | Ret _ => option_list (v_ssid s)
  | _ => []
  end.
Proof.
  pose proof (no_release_mask_signals w s) as Hrel.
  destruct (mask_signals w s) as [[[]|e|sg] s1] eqn:Hm; simpl in Hrel |- *.
  - destruct (v_ssid s) as [ssid|] eqn:Hv.
    + rewrite (release_step_masked w ssid s s1 Hm Hv).
      rewrite no_release_restore_signals. unfold requested_release. simpl.
      rewrite releases_app, Hrel. reflexivity.
    + rewrite (release_step_unbound w s s1 Hm Hv). simpl.
      rewrite app_nil_r. exact Hrel.
  - unfold release_step. rewrite (bind_Exc _ _ _ _ _ Hm). simpl.
    rewrite app_nil_r. exact Hrel.
  - unfold release_step. rewrite (bind_Killed _ _ _ _ _ Hm). simpl.
    rewrite app_nil_r. exact Hrel.
Qed.

(** What the [finally] block releases. *)
Lemma main_finally_releases w args s :
  releases (trace (main_finally w args s).2) = releases (trace s) ++ due_release w args s.
Proof.
  unfold main_finally, due_release. destruct (Args.keep args); simpl negb; cbv iota.
  - rewrite (bind_Ret _ _ _ tt s) by reflexivity.
    rewrite (no_release_index_step w args s), app_nil_r. reflexivity.
  - rewrite (bind_snd_preserves (fun s => releases (trace s)))
      by (intros _; apply no_release_index_step).
    apply release_step_releases.
Qed.

(** The release calls of a job: none in the [try] block, and what the
    [finally] block releases if the process lives to run it. *)
Lemma main_job_releases w args s :
  let after_try :=
    try_except (main_try w args) is_Exception (main_except w) (set_v_rc 0 s) in
  releases (trace (main_job w args s).2) =
  releases (trace s) ++
  match after_try.1 with
  | Killed _ => []
  | _ => due_release w args after_try.2
  end.
Proof.
  intros after_try. unfold main_job.
  rewrite (bind_Ret _ _ _ tt (set_v_rc 0 s)) by reflexivity.
  rewrite (bind_snd_preserves (fun s => releases (trace s))).
  2: { intros _. apply (preserves_bind (fun s => releases (trace s)));
         [apply no_release_checkpoint | intros _ s0; reflexivity]. }
  assert (Htry : releases (trace after_try.2) = releases (trace s)).
  { subst after_try.
    rewrite (preserves_try_except (fun s => releases (trace s))
               (main_try w args) is_Exception (main_except w)
               (no_release_main_try w args) (no_release_main_except w)).
    reflexivity. }
  unfold try_finally. fold after_try.
  destruct after_try as [[[]|e|sg] s1] eqn:E; simpl in *.
  - rewrite <- Htry, <- (main_finally_releases w args s1).
    destruct (main_finally w args s1) as [[[]|e'|sg'] s2]; reflexivity.
  - rewrite <- Htry, <- (main_finally_releases w args s1).
    destruct (main_finally w args s1) as [[[]|e'|sg'] s2]; reflexivity.
  - rewrite app_nil_r. exact Htry.
Qed.

Lemma due_release_length w args s : (length (due_release w args s) <= 1)%nat.
Proof.
  unfold due_release. destruct (Args.keep args); simpl; [lia|].
  destruct (mask_signals w s).1; simpl; try lia. destruct (v_ssid s); simpl; lia.
Qed.

(** C8: once lines 463 and 464 have run, both signals are ignored; the
    release request then runs to its end whatever signal is due meanwhile,
    without the handler being entered; after it the step only restores the
    default dispositions, SIGTERM first, so that it can end in no other
    way than by returning or by the death of the process under the
    restored default; and a job never sends more than one release
    request. *)
Theorem release_step_masks_signals w args s0 s ssid :
  mask_signals w s0 = (Ret tt, s) ->
  v_ssid s0 = Some ssid ->
  ignoring s
  /\ trace s = trace s0 ++ [ESignal SIGTERM SIG_IGN; ESignal SIGHUP SIG_IGN]
  /\ (exists s1,
        free_session w ssid s = (Ret tt, s1)
        /\ trace s1 = trace s ++ [release_request w ssid]
        /\ ignoring s1
        /\ release_step w s0 = restore_signals w s1)
  /\ (let run := release_step w s0 in
      releases (trace run.2) = releases (trace s0) ++ [ssid]
      /\ (forall e, run.1 <> Exc e)
      /\ on_sigterm run.2 = SIG_DFL
      /\ (run.1 = Ret tt ->
          on_sighup run.2 = SIG_DFL
          /\ trace run.2 = trace s ++ [release_request w ssid;
                                       ESignal SIGTERM SIG_DFL; ESignal SIGHUP SIG_DFL]))
  /\ (length (releases (trace (main_job w args (__init__ None)).2)) <= 1)%nat.
Proof.
  intros Hm Hv. pose proof (mask_signals_Ret _ _ _ Hm) as ->.
  split; [apply ignoring_masked|]. split.
  { unfold masked. simpl. rewrite <- app_assoc. reflexivity. }
  split.
  { exists (requested_release w ssid (masked s0)).
    split; [apply free_session_masked, ignoring_masked|].
    split; [reflexivity|]. split; [split; reflexivity|].
    apply release_step_masked; assumption. }
  split.
  { intros run. subst run.
    split.
    { rewrite release_step_releases, Hm, Hv. reflexivity. }
    rewrite (release_step_masked w ssid s0 (masked s0) Hm Hv).
    rewrite restore_signals_ignoring by (split; reflexivity).
    destruct (sigs w _) as [[]|]; simpl.
    - split; [discriminate|]. split; [reflexivity|]. discriminate.
    - split; [discriminate|]. split; [reflexivity|]. intros _.
      split; [reflexivity|]. rewrite <- !app_assoc. reflexivity.
    - split; [discriminate|]. split; [reflexivity|]. intros _.
      split; [reflexivity|]. rewrite <- !app_assoc. reflexivity. }
  rewrite main_job_releases. simpl releases.
  destruct (try_except _ _ _ _).1; simpl; try lia; apply due_release_length.
Qed.

Lemma release_step_masks_signals_witness :
  let w := world_of toy_loads [body_host1] []
             [None; None; Some SIGTERM; Some SIGHUP; Some SIGHUP] true in
  let s0 := set_v_lease (JStr "host1") (JStr "abc") (__init__ None) in
  let s := masked s0 in
  let ssid := JStr "abc" in
  ignoring s
  /\ trace s = trace s0 ++ [ESignal SIGTERM SIG_IGN; ESignal SIGHUP SIG_IGN]
  /\ (exists s1,
        free_session w ssid s = (Ret tt, s1)
        /\ trace s1 = trace s ++ [release_request w ssid]
        /\ ignoring s1
        /\ release_step w s0 = restore_signals w s1)
  /\ (let run := release_step w s0 in
      releases (trace run.2) = releases (trace s0) ++ [ssid]
      /\ (forall e, run.1 <> Exc e)
      /\ on_sigterm run.2 = SIG_DFL
      /\ (run.1 = Ret tt ->
          on_sighup run.2 = SIG_DFL
          /\ trace run.2 = trace s ++ [release_request w ssid;
                                       ESignal SIGTERM SIG_DFL; ESignal SIGHUP SIG_DFL]))
  /\ (length (releases (trace (main_job w default_args (__init__ None)).2)) <= 1)%nat.
Proof.
  intros w s0 s ssid.
  apply (release_step_masks_signals w default_args s0 s ssid).
  - vm_compute. reflexivity.
  - reflexivity.
Defined.

(** *** The [finally] block when nothing comes in its way *)

Lemma index_step_run w args s :
  (index_on w args = true -> v_artifacts_dir s = Some (mkdtemp w)) ->
  (index_on w args = true -> sigs w (n_block s) = None) ->
  exists s',
    index_step w args s = (Ret tt, s')
    /\ trace s' = trace s ++ index_events w args
    /\ v_rc s' = v_rc s
    /\ n_block s' = (n_block s + if index_on w args then 1 else 0)%nat.
Proof.
  intros Hdir Hsig. unfold index_step, index_events. fold (index_on w args).
  destruct (index_on w args).
  - eexists. split; [|split; [|split]].
    + rewrite (bind_Ret _ _ _ (Some (mkdtemp w)) s)
        by (unfold get; rewrite Hdir; reflexivity).
      rewrite (bind_Ret _ _ _ (mkdtemp w) s) by reflexivity.
      unfold execute_local_command, bind, modify, get, blocking. simpl.
      rewrite Hsig by reflexivity. reflexivity.
    + reflexivity.
    + reflexivity.
    + simpl. lia.
  - exists s. rewrite app_nil_r, Nat.add_0_r. auto.
Qed.

(** The [finally] block of a job with [ssid] bound, when no signal is due
    from its start on, unless during the release request. *)
Lemma main_finally_run w args ssid s :
  v_ssid s = Some ssid ->
  (index_on w args = true -> v_artifacts_dir s = Some (mkdtemp w)) ->
  (forall i, (n_block s <= i)%nat -> i <> (n_block s + 2)%nat -> sigs w i = None) ->
  exists s',
    main_finally w args s = (Ret tt, s')
    /\ trace s' = trace s ++ release_events w args ssid ++ index_events w args
    /\ v_rc s' = v_rc s
    /\ sigs w (n_block s') = None.
Proof.
  intros Hssid Hdir Hcalm. unfold main_finally, release_events.
  destruct (Args.keep args); simpl negb; cbv iota.
  - destruct (index_step_run w args s Hdir) as (s' & Hrun & Htr & Hrc & Hn).
    { intros _. apply Hcalm; lia. }
    exists s'. rewrite (bind_Ret _ _ _ tt s) by reflexivity.
    repeat split; try assumption.
    apply Hcalm; rewrite Hn; destruct (index_on w args); lia.
  - destruct (index_step_run w args (released w ssid s)) as (s' & Hrun & Htr & Hrc & Hn).
    { exact Hdir. }
    { intros _. apply Hcalm; simpl; lia. }
    exists s'. rewrite (bind_Ret _ _ _ tt (released w ssid s))
      by (apply release_step_bound; assumption).
    split; [exact Hrun|]. split; [|split; [exact Hrc|]].
    + rewrite Htr. unfold released, restored, half_restored, requested_release, masked.
      simpl. rewrite <- !app_assoc. reflexivity.
    + apply Hcalm; rewrite Hn; simpl; destruct (index_on w args); lia.
Qed.

(** A job whose [try] block and [finally] block both come to their end
    exits with the value of [rc], if no signal is due in front of line
    479. *)
Lemma main_job_exit w args s s1 s2 :
  try_except (main_try w args) is_Exception (main_except w) (set_v_rc 0 s) = (Ret tt, s1) ->
  main_finally w args s1 = (Ret tt, s2) ->
  sigs w (n_block s2) = None ->
  main_job w args s = (Exc (SystemExit (v_rc s2)), next_block s2).
Proof.
  intros Htry Hfin Hsig. unfold main_job.
  rewrite (bind_Ret _ _ _ tt (set_v_rc 0 s)) by reflexivity.
  rewrite (bind_Ret _ _ _ tt s2) by (unfold try_finally; rewrite Htry, Hfin; reflexivity).
  rewrite (bind_Ret _ _ _ tt (next_block s2)) by (apply checkpoint_calm; exact Hsig).
  reflexivity.
Qed.

(** The [except] clause when no signal is due in front of it. *)
Lemma main_except_calm w e s :
  sigs w (n_block s) = None ->
  exists s',
    main_except w e s = (Ret tt, s')
    /\ trace s' = trace s ++ failure_log e
    /\ script_vars s' = (v_node s, v_ssid s, v_artifacts_dir s,
                         if is_SignalException e then v_rc s else 1)
    /\ n_block s' = S (n_block s).
Proof.
  intros Hsig. unfold main_except, failure_log.
  rewrite (bind_Ret _ _ _ tt (next_block s)) by (apply checkpoint_calm; exact Hsig).
  destruct (is_SignalException e).
  - exists (next_block s). simpl. rewrite app_nil_r. auto.
  - eexists. repeat split.
Qed.

(** C7 fails on the code when the handler runs between the end of the
    [try] block and line 464.  In the first run below SIGTERM is due during
    the first remote command and a second one in front of line 463; in the
    second run the first remote command fails and SIGTERM is due in front
    of line 463: both times the handler raises inside the [finally] block,
    no release request is sent for the session the job holds, and the
    process ends with status 1.  In the third run the second SIGTERM is due
    in the [except] clause: the session is released, but the cancelled job
    ends with status 1. *)
Theorem signal_before_masking_skips_release :
  (let w := world_of toy_loads [body_host1] []
              [None; None; Some SIGTERM; None; Some SIGTERM] true in
   let run := run_script w default_args in
   v_ssid run.2 = Some (JStr "abc")
   /\ releases (trace run.2) = []
   /\ exit_status run.1 = Exited 1)
  /\
  (let w := world_of toy_loads [body_host1] [1]
              [None; None; None; None; Some SIGTERM] true in
   let run := run_script w default_args in
   v_ssid run.2 = Some (JStr "abc")
   /\ releases (trace run.2) = []
   /\ exit_status run.1 = Exited 1)
  /\
  (let w := world_of toy_loads [body_host1] []
              [None; None; Some SIGTERM; Some SIGTERM] true in
   let run := run_script w default_args in
   v_ssid run.2 = Some (JStr "abc")
   /\ releases (trace run.2) = [JStr "abc"]
   /\ exit_status run.1 = Exited 1).
Proof. vm_compute. auto 10. Qed.

(** A single termination signal during the first remote command: the
    handler raises, the node is released, the process exits with 0. *)
Example cancelled_job_exits_cleanly :
  let w := world_of toy_loads [body_host1] [] [None; None; Some SIGTERM] false in
  let run := run_script w default_args in
  exit_status run.1 = Exited 0
  /\ releases (trace run.2) = [JStr "abc"]
  /\ length (execs (trace run.2)) = 1%nat.
Proof. vm_compute. auto. Qed.

(** A single signal that is due in front of line 403: the session is
    released, but the index generation finds no [artifacts_dir] and the
    process ends with status 1. *)
Example cancelled_before_the_artifacts_directory :
  let w := world_of toy_loads [body_host1] [] [None; Some SIGTERM] true in
  let run := run_script w default_args in
  run.1 = Exc (NameError "artifacts_dir")
  /\ releases (trace run.2) = [JStr "abc"]
  /\ exit_status run.1 = Exited 1.
Proof. vm_compute. auto. Qed.

(** Signals that are due while the release request is in progress and in
    front of line 469 change nothing: the job below is cancelled during its
    first remote command. *)
Example signal_storm_during_release :
  let w := world_of toy_loads [body_host1] []
             [None; None; Some SIGTERM; None; None; None;
              Some SIGTERM; Some SIGHUP] false in
  let run := run_script w default_args in
  exit_status run.1 = Exited 0
  /\ releases (trace run.2) = [JStr "abc"]
  /\ on_sigterm run.2 = SIG_DFL /\ on_sighup run.2 = SIG_DFL.
Proof. vm_compute. auto. Qed.

(** With no [--keep], a job that is not killed in its [try] block sends
    the release request when the [finally] block gets as far as the masked
    state, for the session [ssid] is bound to then; it never sends
    another. *)
Lemma main_job_releases_bound_ssid w args r s1 s2 :
  try_except (main_try w args) is_Exception (main_except w) (set_v_rc 0 (__init__ None))
    = (r, s1) ->
  (forall sg, r <> Killed sg) ->
  Args.keep args = false ->
  mask_signals w s1 = (Ret tt, s2) ->
  releases (trace (main_job w args (__init__ None)).2) = option_list (v_ssid s1).
Proof.
  intros Htry Hlive Hkeep Hmask. rewrite main_job_releases, Htry.
  cbn [fst snd]. unfold due_release. rewrite Hkeep, Hmask. simpl.
  destruct r; try reflexivity. destruct (Hlive sg eq_refl).
Qed.

Lemma v_ssid_checkpoint w : preserves v_ssid (checkpoint w).
Proof. apply (preserves_checkpoint _ (fun _ => true)); auto. Qed.

Lemma v_ssid_workflow w args node : preserves v_ssid (workflow w args node).
Proof. apply (preserves_workflow _ (fun _ => true)); auto. Qed.

Lemma v_ssid_main_except w e : preserves v_ssid (main_except w e).
Proof. apply (preserves_main_except _ (fun _ => true)); auto. Qed.

Lemma v_rc_main_try w args : preserves v_rc (main_try w args).
Proof. apply (preserves_main_try _ (fun _ => true)); auto. Qed.

Lemma try_except_snd {A B} (f : st -> B) (body : M A) handles handler s :
  (forall e, preserves f (handler e)) ->
  f (try_except body handles handler s).2 = f (body s).2.
Proof.
  intros Hh. unfold try_except. destruct (body s) as [[a|e|sg] s']; try reflexivity.
  destruct (handles e); [apply Hh | reflexivity].
Qed.

(** Once the allocation has returned, [ssid] stays bound to what it
    returned until the [finally] block. *)
Lemma ssid_bound_after_try w args node ssid s1 :
  allocate_node w (Args.version args) (Args.arch args)
    (install_handlers (set_v_rc 0 (__init__ None))).2 = (Ret (node, ssid), s1) ->
  v_ssid (try_except (main_try w args) is_Exception (main_except w)
            (set_v_rc 0 (__init__ None))).2 = Some ssid.
Proof.
  intros Halloc. rewrite try_except_snd by apply v_ssid_main_except.
  unfold main_try, main_try_body.
  rewrite (bind_Ret _ _ _ tt (install_handlers (set_v_rc 0 (__init__ None))).2)
    by reflexivity.
  rewrite (bind_Ret _ _ _ _ _ Halloc).
  rewrite (bind_Ret _ _ _ tt (set_v_lease node ssid s1)) by reflexivity.
  rewrite (preserves_bind v_ssid).
  - reflexivity.
  - simpl. destruct (is_None node || is_None ssid); [|intros s; reflexivity].
    apply (preserves_bind v_ssid); [apply v_ssid_checkpoint|].
    intros _ s. reflexivity.
  - intros _. apply (preserves_bind v_ssid);
      [apply v_ssid_workflow | intros _; apply v_ssid_checkpoint].
Qed.

(** A job that dies in its [try] block dies. *)
Lemma main_job_killed_in_try w args s sg s1 :
  try_except (main_try w args) is_Exception (main_except w) (set_v_rc 0 s)
    = (Killed sg, s1) ->
  main_job w args s = (Killed sg, s1).
Proof.
  intros Htry. unfold main_job.
  rewrite (bind_Ret _ _ _ tt (set_v_rc 0 s)) by reflexivity.
  apply bind_Killed. unfold try_finally. rewrite Htry. reflexivity.
Qed.

(** A job whose allocation raises sends no release request: [ssid] is
    unbound when the [finally] block reads it. *)
Example no_release_when_allocation_raises :
  let w := world_of toy_loads [] [] [] true in
  let run := run_script w default_args in
  run.1 = Exc (NameError "ssid")
  /\ releases (trace run.2) = []
  /\ exit_status run.1 = Exited 1.
Proof. vm_compute. auto. Qed.

(** C1 fails on the code when the allocation ends without a Lease by
    returning [(None, None)]: [sys.exit(1)] is called inside the [try]
    block, the [finally] block runs, and [free_session(None)] sends one
    release request. *)
Theorem release_requested_without_lease :
  let w := world_of toy_loads [body_no_hosts] [] [] true in
  let run := run_script w default_args in
  lease_of (allocate_node w "7" "x86_64"
              (install_handlers (set_v_rc 0 (__init__ None))).2).1 = None
  /\ releases (trace run.2) = [JNull]
  /\ exit_status run.1 = Exited 1.
Proof. vm_compute. auto. Qed.

(** ** The destructor *)

Lemma _node_perform w c : preserves _node (perform w c).
Proof.
  assert (Hbind : forall A (m : M A), preserves _node m -> preserves _node (m ;; ret tt)).
  { intros A m Hm. apply (preserves_bind _node); [exact Hm|]. intros _ s. reflexivity. }
  destruct c; simpl.
  - apply Hbind, (preserves_allocate_node _ (fun _ => true)); auto.
  - apply Hbind, (preserves_allocated_nodes _ (fun _ => true)); auto.
  - apply Hbind, (preserves_execute_local_command _ (fun _ => true)); auto.
  - apply Hbind, (preserves_execute_remote_command _ (fun _ => true)); auto.
  - apply Hbind, (preserves_fetch_artifacts _ (fun _ => true)); auto.
  - apply (preserves_free_all_nodes _ (fun _ => true)); auto.
  - apply (preserves_free_session _ (fun _ => true)); auto.
  - apply (preserves_reboot_node _ (fun _ => true)); auto.
  - apply Hbind, (preserves_upload_file _ (fun _ => true)); auto.
  - intros s. reflexivity.
  - apply (preserves_main _ (fun _ => true)); auto.
Qed.

Lemma _node_perform_all w calls : forall s, _node (perform_all w calls s) = _node s.
Proof.
  induction calls as [|c calls IH]; intros s; simpl; [reflexivity|].
  pose proof (_node_perform w c s) as Hc.
  destruct (perform w c s) as [[[]|e|sg] s']; simpl in Hc; rewrite <- Hc; auto.
Qed.

(** C10: [__init__] leaves [_node] empty and nothing ever puts a session
    into it: after any sequence of method calls (the run of the script
    body among them) [_node] is empty, the test of [__del__] fails, and
    [__del__] returns without a release request or any other effect. *)
Theorem destructor_never_releases w artifacts calls :
  let s := perform_all w calls (__init__ artifacts) in
  _node s = ∅ /\ __del__ w s = (Ret tt, s).
Proof.
  intros s. assert (Hnode : _node s = ∅) by apply _node_perform_all.
  split; [exact Hnode|].
  unfold __del__, bind, get. rewrite Hnode. reflexivity.
Qed.

(** A job that obtains a node still ends with an empty [_node]. *)
Example destructor_after_job :
  let w := world_of toy_loads [body_host1] [] [] true in
  let s := perform_all w [Run_main default_args] (__init__ None) in
  releases (trace s) = [JStr "abc"]
  /\ _node s = ∅
  /\ trace (__del__ w s).2 = trace s.
Proof. vm_compute. auto. Qed.

(** * Further properties *)

(** ** Allocation, whatever the pool answers and whatever signals arrive *)





Lemma has_fields_pure j s : (has_fields j s).2 = s.
Proof. destruct j; try reflexivity; unfold has_fields, bind; simpl; repeat case_match; reflexivity. Qed.


Lemma pure_bind {A C} (m : M A) (k : A -> M C) :
  (forall s, (m s).2 = s) -> (forall a s, (k a s).2 = s) ->
  forall s, (bind m k s).2 = s.
Proof. intros Hm Hk s. rewrite bind_snd_stateless by auto. apply Hm. Qed.

Lemma py_getitem_str_pure j key s : (py_getitem_str j key s).2 = s.
Proof. destruct j; simpl; try reflexivity. destruct (_ !! _); reflexivity. Qed.

Lemma py_getitem_int_pure j i s : (py_getitem_int j i s).2 = s.
Proof.
  destruct j; simpl; try reflexivity.
  - destruct (String.get _ _); reflexivity.
  - destruct (_ !! _); reflexivity.
Qed.

(** Reading the lease leaves the state alone, apart from the error it may
    log. *)
Lemma extract_lease_state jroot s :
  (extract_lease jroot s).2 = s
  \/ (extract_lease jroot s).2 = emit (ELog ERROR "Failed to allocated a node") s.
Proof.
  unfold extract_lease, try_except.
  match goal with |- context [match ?body s with _ => _ end] =>
    assert (Hpure : (body s).2 = s); [|destruct (body s) as [[a|e|sg] s1]]
  end.
  - apply pure_bind; [destruct jroot; reflexivity|intros j s0].
    apply pure_bind; [intros; apply py_getitem_str_pure|intros hosts s1].
    apply pure_bind; [intros; apply py_getitem_int_pure|intros host s2].
    apply pure_bind; [intros; apply py_getitem_str_pure|intros ssid s3].
    reflexivity.
  - left. exact Hpure.
  - simpl in Hpure. subst s1. destruct e; simpl; auto.
  - left. exact Hpure.
Qed.







(** [k] failed attempts bring the loop to its [k]-th timeout. *)
Lemma allocate_loop_skip w payload : forall timeouts k jroot s,
  quiet w ->
  (k <= length timeouts)%nat ->
  (forall i, (i < k)%nat ->
             unexpected (json_loads w (http w (n_http s + i))) = true) ->
  exists jroot' s1,
    allocate_loop w timeouts payload jroot s
      = allocate_loop w (drop k timeouts) payload jroot' s1
    /\ schedule (trace s1) = schedule (trace s) ++ retries (take k timeouts)
    /\ n_http s1 = (n_http s + k)%nat.
Proof.
  induction timeouts as [|t rest IH]; intros k jroot s Hq Hk Hbad.
  - simpl in Hk. replace k with 0%nat by lia. exists jroot, s.
    simpl. rewrite app_nil_r, Nat.add_0_r. auto.
  - destruct k as [|k].
    + exists jroot, s. simpl. rewrite app_nil_r, Nat.add_0_r. auto.
    + assert (H0 : unexpected (json_loads w (http w (n_http s))) = true).
      { specialize (Hbad 0%nat). rewrite Nat.add_0_r in Hbad. apply Hbad. lia. }
      destruct (allocate_loop_retry w t rest payload jroot s Hq H0)
        as (jroot1 & s1 & Hstep & _ & Hsch & Hn).
      destruct (IH k jroot1 s1 Hq) as (jroot' & s' & Hrun & Hsch' & Hn').
      * simpl in Hk. lia.
      * intros i Hi. rewrite Hn. simpl. rewrite <- Nat.add_succ_r. apply Hbad. lia.
      * exists jroot', s'. rewrite Hstep, Hrun. split; [reflexivity|].
        rewrite Hsch', Hsch, Hn', Hn. simpl. rewrite <- app_assoc.
        split; [reflexivity | lia].
Qed.

Lemma attempt_scalar w payload jroot s j :
  quiet w ->
  json_loads w (http w (n_http s)) = Some j ->
  scalar j = true ->
  attempt w payload jroot s = (Exc TypeError, requested w payload s).
Proof.
  intros Hq Hj Hs. unfold attempt, bind.
  rewrite _execute_api_command_quiet by assumption. rewrite Hj.
  destruct j; try discriminate Hs; reflexivity.
Qed.

(** X2: a response that decodes to [null], a boolean or a number is not
    retried: the membership test raises [TypeError], which the loop does
    not catch, and [allocate_node] raises it right after that request,
    without a wait. *)
Theorem allocate_node_scalar_response_raises w version architecture s k j :
  quiet w ->
  (k < 5)%nat ->
  (forall i, (i < k)%nat ->
             unexpected (json_loads w (http w (n_http s + i))) = true) ->
  json_loads w (http w (n_http s + k)) = Some j ->
  scalar j = true ->
  exists s',
    allocate_node w version architecture s = (Exc TypeError, s')
    /\ schedule (trace s') =
         schedule (trace s) ++ retries (take k backoff) ++ [Request].
Proof.
  intros Hq Hk Hbad Hj Hs. unfold allocate_node.
  destruct (allocate_loop_skip w
              (<["arch" := JStr architecture]> {["ver" := JStr version]})
              backoff k None s Hq) as (jroot' & s1 & Hrun & Hsch & Hn);
    [simpl; lia | exact Hbad |].
  destruct (drop k backoff) as [|t rest] eqn:Hdrop.
  { apply (f_equal length) in Hdrop. rewrite length_drop in Hdrop. simpl in Hdrop. lia. }
  exists (requested w (<["arch" := JStr architecture]> {["ver" := JStr version]}) s1).
  split.
  - apply bind_Exc. rewrite Hrun. simpl. apply bind_Exc.
    apply (attempt_scalar w _ jroot' s1 j); [assumption | | assumption].
    rewrite Hn. exact Hj.
  - simpl. rewrite schedule_app, Hsch, <- app_assoc. reflexivity.
Qed.

Lemma allocate_node_scalar_response_raises_witness :
  let w := world_of more_loads [pool_error; "null"; body_host1] [] [] true in
  exists s',
    allocate_node w "7" "x86_64" (__init__ None) = (Exc TypeError, s')
    /\ schedule (trace s') =
         schedule (trace (__init__ None)) ++ retries (take 1 backoff) ++ [Request].
Proof.
  intros w.
  apply (allocate_node_scalar_response_raises w "7" "x86_64" (__init__ None) 1 JNull).
  - apply world_of_quiet.
  - lia.
  - intros i Hi. destruct i as [|i]; [vm_compute; reflexivity | lia].
  - vm_compute. reflexivity.
  - reflexivity.
Defined.

(** ** Inventory and bulk release *)

Lemma nodes_of_inventory pairs s :
  nodes_of ((fun p => JArr [p.1; p.2]) <$> pairs) s = (Ret pairs, s).
Proof.
  induction pairs as [|[host ssid] pairs IH]; [reflexivity|].
  rewrite fmap_cons. cbn [nodes_of].
  rewrite (bind_Ret _ _ _ host s) by reflexivity.
  rewrite (bind_Ret _ _ _ ssid s) by reflexivity.
  rewrite (bind_Ret _ _ _ pairs s) by exact IH.
  reflexivity.
Qed.

Lemma allocated_nodes_inventory_quiet w verbose pairs s :
  quiet w ->
  json_loads w (http w (n_http s)) = Some (inventory_of pairs) ->
  allocated_nodes w verbose s
  = (Ret pairs, next_block (next_http (emit (inventory_request w) s))).
Proof.
  intros Hq Hj. unfold allocated_nodes.
  rewrite (bind_Ret _ _ _ (http w (n_http s))
             (next_block (next_http (emit (inventory_request w) s))))
    by (apply _execute_api_command_quiet; assumption).
  rewrite Hj.
  rewrite (bind_Ret _ _ _ (inventory_of pairs)
             (next_block (next_http (emit (inventory_request w) s)))) by reflexivity.
  rewrite (bind_Ret _ _ _ ((fun p => JArr [p.1; p.2]) <$> pairs)
             (next_block (next_http (emit (inventory_request w) s)))) by reflexivity.
  apply nodes_of_inventory.
Qed.

(** X3: when the pool's inventory is a list of [host, session] pairs,
    [allocated_nodes] returns these pairs in the pool's order, after a
    single request to the inventory endpoint. *)
Theorem allocated_nodes_lists_inventory w verbose pairs s :
  quiet w ->
  json_loads w (http w (n_http s)) = Some (inventory_of pairs) ->
  exists s',
    allocated_nodes w verbose s = (Ret pairs, s')
    /\ trace s' = trace s ++ [inventory_request w].
Proof.
  intros Hq Hj. eexists. split.
  - apply allocated_nodes_inventory_quiet; assumption.
  - reflexivity.
Qed.

Lemma allocated_nodes_lists_inventory_witness :
  let w := world_of more_loads [body_inventory] [] [] true in
  exists s',
    allocated_nodes w true (__init__ None) = (Ret [(JStr "host2", JStr "xyz")], s')
    /\ trace s' = trace (__init__ None) ++ [inventory_request w].
Proof.
  intros w.
  apply (allocated_nodes_lists_inventory w true [(JStr "host2", JStr "xyz")] (__init__ None)).
  - apply world_of_quiet.
  - vm_compute. reflexivity.
Defined.

Lemma free_session_quiet w ssid s :
  quiet w ->
  free_session w ssid s
  = (Ret tt, next_block (next_http (emit (release_request w ssid) s))).
Proof.
  intros Hq. unfold free_session, bind.
  rewrite _execute_api_command_quiet by assumption. reflexivity.
Qed.

Lemma free_sessions_of_quiet w : forall nodes s,
  quiet w ->
  exists s',
    free_sessions_of w nodes s = (Ret tt, s')
    /\ trace s' = trace s ++ (release_request w <$> nodes.*2).
Proof.
  induction nodes as [|node nodes IH]; intros s Hq.
  - exists s. simpl. rewrite app_nil_r. auto.
  - destruct (IH (next_block (next_http (emit (release_request w node.2) s))) Hq)
      as (s' & Hrun & Htr).
    exists s'. split.
    + simpl. unfold bind. rewrite free_session_quiet by assumption. exact Hrun.
    + rewrite Htr. simpl. rewrite <- app_assoc. reflexivity.
Qed.

Lemma releases_release_requests w l : releases (release_request w <$> l) = l.
Proof.
  induction l as [|ssid l IH]; [reflexivity|].
  rewrite fmap_cons.
  change (release_request w ssid :: (release_request w <$> l))
    with ([release_request w ssid] ++ (release_request w <$> l)).
  rewrite releases_app, releases_release_request, IH. reflexivity.
Qed.

(** X4: [free_all_nodes] asks for the inventory once and then releases
    every session of it, in the pool's order, one request per session;
    what the pool answers to the release requests plays no role. *)
Theorem free_all_nodes_releases_inventory w pairs s :
  quiet w ->
  json_loads w (http w (n_http s)) = Some (inventory_of pairs) ->
  exists s',
    free_all_nodes w s = (Ret tt, s')
    /\ trace s' = trace s ++ inventory_request w :: (release_request w <$> pairs.*2)
    /\ releases (trace s') = releases (trace s) ++ pairs.*2.
Proof.
  intros Hq Hj.
  pose proof (allocated_nodes_inventory_quiet w false pairs s Hq Hj) as Hlist.
  destruct (free_sessions_of_quiet w pairs
              (next_block (next_http (emit (inventory_request w) s))) Hq)
    as (s' & Hrun & Htr).
  exists s'. split; [|split].
  - unfold free_all_nodes. rewrite (bind_Ret _ _ _ _ _ Hlist). exact Hrun.
  - rewrite Htr. simpl. rewrite <- app_assoc. reflexivity.
  - rewrite Htr. simpl. rewrite <- app_assoc, !releases_app. simpl.
    rewrite releases_release_requests. reflexivity.
Qed.

Lemma free_all_nodes_releases_inventory_witness :
  let w := world_of more_loads [body_inventory] [] [] true in
  let pairs := [(JStr "host2", JStr "xyz")] in
  exists s',
    free_all_nodes w (__init__ None) = (Ret tt, s')
    /\ trace s' = trace (__init__ None)
                  ++ inventory_request w :: (release_request w <$> pairs.*2)
    /\ releases (trace s') = releases (trace (__init__ None)) ++ pairs.*2.
Proof.
  intros w pairs.
  apply (free_all_nodes_releases_inventory w pairs (__init__ None)).
  - apply world_of_quiet.
  - vm_compute. reflexivity.
Defined.

(** X5: an inventory that is no JSON is not asked for again:
    [allocated_nodes] raises [ValueError] after its single request, and
    [free_all_nodes] raises it too, without a release request. *)
Theorem inventory_failure_is_surfaced w verbose s :
  quiet w ->
  json_loads w (http w (n_http s)) = None ->
  exists s',
    allocated_nodes w verbose s = (Exc ValueError, s')
    /\ free_all_nodes w s = (Exc ValueError, s')
    /\ trace s' = trace s ++ [inventory_request w].
Proof.
  intros Hq Hj.
  assert (Hlist : forall v, allocated_nodes w v s
            = (Exc ValueError, next_block (next_http (emit (inventory_request w) s)))).
  { intros v. unfold allocated_nodes.
    rewrite (bind_Ret _ _ _ (http w (n_http s))
               (next_block (next_http (emit (inventory_request w) s))))
      by (apply _execute_api_command_quiet; assumption).
    rewrite Hj. reflexivity. }
  eexists. split; [apply Hlist|]. split; [|reflexivity].
  unfold free_all_nodes. apply bind_Exc, Hlist.
Qed.

Lemma inventory_failure_is_surfaced_witness :
  let w := world_of more_loads [pool_error; body_inventory] [] [] true in
  exists s',
    allocated_nodes w false (__init__ None) = (Exc ValueError, s')
    /\ free_all_nodes w (__init__ None) = (Exc ValueError, s')
    /\ trace s' = trace (__init__ None) ++ [inventory_request w].
Proof.
  intros w.
  apply (inventory_failure_is_surfaced w false (__init__ None)).
  - apply world_of_quiet.
  - vm_compute. reflexivity.
Defined.

Lemma nodes_of_short_entry pairs x rest s :
  nodes_of (((fun p => JArr [p.1; p.2]) <$> pairs) ++ JArr [x] :: rest) s
  = (Exc IndexError, s).
Proof.
  induction pairs as [|[host ssid] pairs IH]; [reflexivity|].
  rewrite fmap_cons. cbn [app nodes_of].
  rewrite (bind_Ret _ _ _ host s) by reflexivity.
  rewrite (bind_Ret _ _ _ ssid s) by reflexivity.
  apply bind_Exc, IH.
Qed.

(** X6: [free_all_nodes] decodes the whole inventory before it releases
    anything: an entry with one item only makes it raise [IndexError]
    with no session released, also not the sessions listed before that
    entry. *)
Theorem free_all_nodes_short_entry_releases_nothing w pairs x rest s :
  quiet w ->
  json_loads w (http w (n_http s))
    = Some (JArr (((fun p => JArr [p.1; p.2]) <$> pairs) ++ JArr [x] :: rest)) ->
  exists s',
    free_all_nodes w s = (Exc IndexError, s')
    /\ trace s' = trace s ++ [inventory_request w]
    /\ releases (trace s') = releases (trace s).
Proof.
  intros Hq Hj. eexists. split; [|split].
  - unfold free_all_nodes. apply bind_Exc. unfold allocated_nodes.
    rewrite (bind_Ret _ _ _ (http w (n_http s))
               (next_block (next_http (emit (inventory_request w) s))))
      by (apply _execute_api_command_quiet; assumption).
    rewrite Hj.
    rewrite (bind_Ret _ _ _ _ (next_block (next_http (emit (inventory_request w) s))))
      by reflexivity.
    rewrite (bind_Ret _ _ _ _ (next_block (next_http (emit (inventory_request w) s))))
      by reflexivity.
    apply nodes_of_short_entry.
  - reflexivity.
  - simpl. rewrite releases_app. simpl. apply app_nil_r.
Qed.

Lemma free_all_nodes_short_entry_releases_nothing_witness :
  let w := world_of more_loads [body_short_inventory] [] [] true in
  exists s',
    free_all_nodes w (__init__ None) = (Exc IndexError, s')
    /\ trace s' = trace (__init__ None) ++ [inventory_request w]
    /\ releases (trace s') = releases (trace (__init__ None)).
Proof.
  intros w.
  apply (free_all_nodes_short_entry_releases_nothing w
           [(JStr "host2", JStr "xyz")] (JStr "host3") [] (__init__ None)).
  - apply world_of_quiet.
  - vm_compute. reflexivity.
Defined.

(** ** The administrative sub-commands *)

(** X7: with [--free-session x] the script sends the release request for
    [x] and exits with 0, whatever other options are given: it installs no
    handler, allocates nothing and runs no phase. *)
Theorem main_free_session_only_releases w args x s :
  quiet w ->
  Args.free_session args = Some x ->
  x <> "" ->
  exists s',
    main w args s = (Exc (SystemExit 0), s')
    /\ trace s' = trace s ++ [release_request w (JStr x)].
Proof.
  intros Hq Hx Hne. eexists. split.
  - unfold main. rewrite Hx. simpl.
    apply String.eqb_neq in Hne. rewrite Hne. simpl.
    rewrite (bind_Ret _ _ _ tt (next_block (next_http (emit (release_request w (JStr x)) s))))
      by (apply free_session_quiet; assumption).
    reflexivity.
  - reflexivity.
Qed.

Lemma main_free_session_only_releases_witness :
  let w := world_of more_loads [] [] [] true in
  let args := Args.mk "x86_64" None None true (Some "abc") false true false
                       None None None false "7" in
  exists s',
    main w args (__init__ None) = (Exc (SystemExit 0), s')
    /\ trace s' = trace (__init__ None) ++ [release_request w (JStr "abc")].
Proof.
  intros w args.
  apply (main_free_session_only_releases w args "abc" (__init__ None)).
  - apply world_of_quiet.
  - reflexivity.
  - discriminate.
Defined.

(** X8: with [--list-nodes] (and neither [--free-session] nor
    [--free-all-nodes]) and an inventory of [host, session] pairs, the
    script sends the inventory request and exits with 0: nothing is
    allocated and nothing is released. *)
Theorem main_list_nodes_only_lists w args pairs s :
  quiet w ->
  truthy (Args.free_session args) = false ->
  Args.free_all_nodes args = false ->
  Args.list_nodes args = true ->
  json_loads w (http w (n_http s)) = Some (inventory_of pairs) ->
  exists s',
    main w args s = (Exc (SystemExit 0), s')
    /\ trace s' = trace s ++ [inventory_request w].
Proof.
  intros Hq Hfs Hfa Hl Hj. eexists. split.
  - unfold main. rewrite Hfs, Hfa, Hl.
    rewrite (bind_Ret _ _ _ pairs (next_block (next_http (emit (inventory_request w) s))))
      by (apply allocated_nodes_inventory_quiet; assumption).
    reflexivity.
  - reflexivity.
Qed.

Lemma main_list_nodes_only_lists_witness :
  let w := world_of more_loads [body_inventory] [] [] true in
  let args := Args.mk "x86_64" None None false (Some "") false true false
                       None None None false "7" in
  exists s',
    main w args (__init__ None) = (Exc (SystemExit 0), s')
    /\ trace s' = trace (__init__ None) ++ [inventory_request w].
Proof.
  intros w args.
  apply (main_list_nodes_only_lists w args [(JStr "host2", JStr "xyz")] (__init__ None)).
  - apply world_of_quiet.
  - reflexivity.
  - reflexivity.
  - reflexivity.
  - vm_compute. reflexivity.
Defined.

(** X9: with [--free-all-nodes] and no [--free-session], the script asks
    for the inventory, releases every session of it in order and exits
    with 0, also when [--list-nodes] is given: nothing is allocated. *)
Theorem main_free_all_nodes_releases_inventory w args pairs s :
  quiet w ->
  truthy (Args.free_session args) = false ->
  Args.free_all_nodes args = true ->
  json_loads w (http w (n_http s)) = Some (inventory_of pairs) ->
  exists s',
    main w args s = (Exc (SystemExit 0), s')
    /\ trace s' = trace s ++ inventory_request w :: (release_request w <$> pairs.*2).
Proof.
  intros Hq Hfs Hfa Hj.
  pose proof (allocated_nodes_inventory_quiet w false pairs s Hq Hj) as Hlist.
  destruct (free_sessions_of_quiet w pairs
              (next_block (next_http (emit (inventory_request w) s))) Hq)
    as (s' & Hrun & Htr).
  exists s'. split.
  - unfold main. rewrite Hfs, Hfa.
    rewrite (bind_Ret _ _ _ tt s'); [reflexivity|].
    unfold free_all_nodes. rewrite (bind_Ret _ _ _ _ _ Hlist). exact Hrun.
  - rewrite Htr. simpl. rewrite <- app_assoc. reflexivity.
Qed.

Lemma main_free_all_nodes_releases_inventory_witness :
  let w := world_of more_loads [body_inventory] [] [] true in
  let args := Args.mk "x86_64" None None true None false true false
                       None None None false "7" in
  let pairs := [(JStr "host2", JStr "xyz")] in
  exists s',
    main w args (__init__ None) = (Exc (SystemExit 0), s')
    /\ trace s' = trace (__init__ None)
                  ++ inventory_request w :: (release_request w <$> pairs.*2).
Proof.
  intros w args pairs.
  apply (main_free_all_nodes_releases_inventory w args pairs (__init__ None)).
  - apply world_of_quiet.
  - reflexivity.
  - reflexivity.
  - vm_compute. reflexivity.
Defined.

(** ** Invariants of the state and ways to end *)

Section Keeps.

Context (I : st -> Prop) (Q : fate -> Prop) (ok : event -> Prop) (w : world).

Hypothesis Q_returned : Q Returned.
Hypothesis Q_raised : forall e, Q (Raised e).
Hypothesis I_emit : forall e s, ok e -> I s -> I (emit e s).
Hypothesis I_next_http : forall s, I s -> I (next_http s).
Hypothesis I_next_proc : forall s, I s -> I (next_proc s).
Hypothesis I_next_block : forall s, I s -> I (next_block s).
Hypothesis ok_other : forall e, is_http e = false -> ok e.
Hypothesis ok_api : forall endpoint payload,
  endpoint ∈ endpoints ->
  ok (EHttp (API_BASE +:+ endpoint) (<["key" := JStr (duffy_key w)]> payload)).
Hypothesis H_deliver : forall l, keeps I Q (deliver l).

Lemma keeps_ret {A} (a : A) : keeps I Q (ret a).
Proof. intros s Hs. split; [exact Hs | exact Q_returned]. Qed.
#[local] Hint Resolve keeps_ret : keeps.

Lemma keeps_raise {A} e : keeps I Q (@raise A e).
Proof. intros s Hs. split; [exact Hs | apply Q_raised]. Qed.
#[local] Hint Resolve keeps_raise : keeps.

Lemma keeps_get {A} (g : st -> A) : keeps I Q (get g).
Proof. intros s Hs. split; [exact Hs | exact Q_returned]. Qed.
#[local] Hint Resolve keeps_get : keeps.

Lemma keeps_read_var {A} e (v : option A) : keeps I Q (read_var e v).
Proof. destruct v; [apply keeps_ret | apply keeps_raise]. Qed.
#[local] Hint Resolve keeps_read_var : keeps.

Lemma keeps_modify g : (forall s, I s -> I (g s)) -> keeps I Q (modify g).
Proof. intros H s Hs. split; [apply H, Hs | exact Q_returned]. Qed.

Lemma keeps_bind {A C} (m : M A) (k : A -> M C) :
  keeps I Q m -> (forall a, keeps I Q (k a)) -> keeps I Q (bind m k).
Proof.
  intros Hm Hk s Hs. unfold bind. destruct (Hm s Hs) as [HI HQ].
  destruct (m s) as [[a|e|sg] s']; simpl in *; [apply Hk, HI | split; assumption..].
Qed.

Ltac keeps_tac :=
  repeat first
    [ solve [eauto with keeps]
    | apply keeps_bind; [|intros ?]
    | match goal with
      | |- keeps _ _ (match ?x with _ => _ end) => destruct x
      | |- keeps _ _ (if ?b then _ else _) => destruct b
      end ].

Lemma keeps_try_except {A} (body : M A) handles handler :
  keeps I Q body -> (forall e, keeps I Q (handler e)) ->
  keeps I Q (try_except body handles handler).
Proof.
  intros Hb Hh s Hs. unfold try_except. destruct (Hb s Hs) as [HI HQ].
  destruct (body s) as [[a|e|sg] s']; simpl in *; [split; assumption | | split; assumption].
  destruct (handles e); [apply Hh, HI | split; assumption].
Qed.

Lemma keeps_try_finally {A} (body : M A) cleanup :
  keeps I Q body -> keeps I Q cleanup -> keeps I Q (try_finally body cleanup).
Proof.
  intros Hb Hc s Hs. unfold try_finally. destruct (Hb s Hs) as [HI HQ].
  destruct (body s) as [[a|e|sg] s']; simpl in *; [| |split; assumption];
    destruct (Hc s' HI) as [HI' HQ'];
    destruct (cleanup s') as [[[]|e'|sg'] s'']; simpl in *; split; auto.
Qed.

Lemma keeps_emit e : ok e -> keeps I Q (modify (emit e)).
Proof. intros H. apply keeps_modify. intros s. apply I_emit, H. Qed.

Lemma keeps_log lvl msg : keeps I Q (log lvl msg).
Proof. apply keeps_emit, ok_other. reflexivity. Qed.
#[local] Hint Resolve keeps_log : keeps.

Lemma keeps_blocking : keeps I Q (blocking w).
Proof. intros s Hs. unfold blocking. apply H_deliver, I_next_block, Hs. Qed.
#[local] Hint Resolve keeps_blocking : keeps.

Lemma keeps_checkpoint : keeps I Q (checkpoint w).
Proof. apply keeps_blocking. Qed.
#[local] Hint Resolve keeps_checkpoint : keeps.

Lemma keeps_time_sleep t : keeps I Q (time_sleep w t).
Proof.
  apply keeps_bind; [|intros _; apply keeps_blocking].
  apply keeps_emit, ok_other. reflexivity.
Qed.
#[local] Hint Resolve keeps_time_sleep : keeps.

Lemma keeps_api endpoint payload :
  endpoint ∈ endpoints -> keeps I Q (_execute_api_command w endpoint payload).
Proof.
  intros Hin. unfold _execute_api_command, requests_get.
  apply keeps_bind; [apply keeps_get|]. intros n.
  apply keeps_bind; [apply keeps_emit, ok_api, Hin|]. intros _.
  apply keeps_bind; [apply keeps_modify, I_next_http|]. intros _.
  keeps_tac.
Qed.

Lemma keeps_execute_local_command command :
  keeps I Q (execute_local_command w command).
Proof.
  unfold execute_local_command.
  apply keeps_bind; [apply keeps_get|]. intros n.
  apply keeps_bind; [apply keeps_emit, ok_other; reflexivity|]. intros _.
  apply keeps_bind; [apply keeps_modify, I_next_proc|]. intros _.
  keeps_tac.
Qed.
#[local] Hint Resolve keeps_execute_local_command : keeps.

Lemma keeps_py_contains needle j : keeps I Q (py_contains needle j).
Proof. destruct j; simpl; keeps_tac. Qed.
#[local] Hint Resolve keeps_py_contains : keeps.

Lemma keeps_py_getitem_str j key : keeps I Q (py_getitem_str j key).
Proof. destruct j; simpl; keeps_tac. Qed.
#[local] Hint Resolve keeps_py_getitem_str : keeps.

Lemma keeps_py_getitem_int j i : keeps I Q (py_getitem_int j i).
Proof. destruct j; simpl; keeps_tac. Qed.
#[local] Hint Resolve keeps_py_getitem_int : keeps.

Lemma keeps_py_iter j : keeps I Q (py_iter j).
Proof. destruct j; simpl; keeps_tac. Qed.
#[local] Hint Resolve keeps_py_iter : keeps.

Lemma keeps_has_fields j : keeps I Q (has_fields j).
Proof. unfold has_fields. keeps_tac. Qed.
#[local] Hint Resolve keeps_has_fields : keeps.

Lemma keeps_attempt payload jroot : keeps I Q (attempt w payload jroot).
Proof.
  unfold attempt. apply keeps_bind; [apply keeps_api; set_solver|]. intros res.
  keeps_tac.
Qed.
#[local] Hint Resolve keeps_attempt : keeps.

Lemma keeps_allocate_loop timeouts payload :
  forall jroot, keeps I Q (allocate_loop w timeouts payload jroot).
Proof.
  induction timeouts as [|t rest IH]; intros jroot; simpl; keeps_tac.
Qed.
#[local] Hint Resolve keeps_allocate_loop : keeps.

Lemma keeps_extract_lease jroot : keeps I Q (extract_lease jroot).
Proof.
  unfold extract_lease. apply keeps_try_except; [|intros ?]; keeps_tac.
Qed.
#[local] Hint Resolve keeps_extract_lease : keeps.

Lemma keeps_allocate_node version architecture :
  keeps I Q (allocate_node w version architecture).
Proof. unfold allocate_node. keeps_tac. Qed.
#[local] Hint Resolve keeps_allocate_node : keeps.

Lemma keeps_nodes_of items : keeps I Q (nodes_of items).
Proof. induction items as [|x items IH]; simpl; keeps_tac. Qed.
#[local] Hint Resolve keeps_nodes_of : keeps.

Lemma keeps_allocated_nodes verbose : keeps I Q (allocated_nodes w verbose).
Proof.
  unfold allocated_nodes. apply keeps_bind; [apply keeps_api; set_solver|]. intros res.
  keeps_tac.
Qed.
#[local] Hint Resolve keeps_allocated_nodes : keeps.

Lemma keeps_free_session ssid : keeps I Q (free_session w ssid).
Proof.
  unfold free_session. apply keeps_bind; [apply keeps_api; set_solver|]. intros res.
  keeps_tac.
Qed.
#[local] Hint Resolve keeps_free_session : keeps.

Lemma keeps_free_sessions_of nodes : keeps I Q (free_sessions_of w nodes).
Proof. induction nodes as [|node nodes IH]; simpl; keeps_tac. Qed.
#[local] Hint Resolve keeps_free_sessions_of : keeps.

Lemma keeps_free_all_nodes : keeps I Q (free_all_nodes w).
Proof. unfold free_all_nodes. keeps_tac. Qed.
#[local] Hint Resolve keeps_free_all_nodes : keeps.

Lemma keeps_fetch_artifacts node remote_dir local_dir :
  keeps I Q (fetch_artifacts w node remote_dir local_dir).
Proof. apply keeps_execute_local_command. Qed.
#[local] Hint Resolve keeps_fetch_artifacts : keeps.

Lemma keeps_upload_file node local_source remote_target :
  keeps I Q (upload_file w node local_source remote_target).
Proof. apply keeps_execute_local_command. Qed.
#[local] Hint Resolve keeps_upload_file : keeps.

Lemma keeps_execute_remote_command node command expected_rc artifacts_dir ignore_rc :
  keeps I Q (execute_remote_command w node command expected_rc artifacts_dir ignore_rc).
Proof. unfold execute_remote_command. keeps_tac. Qed.
#[local] Hint Resolve keeps_execute_remote_command : keeps.

Lemma keeps_ping_loop tries command :
  forall rc, keeps I Q (ping_loop w tries command rc).
Proof. induction tries as [|t tries IH]; intros rc; simpl; keeps_tac. Qed.
#[local] Hint Resolve keeps_ping_loop : keeps.

Lemma keeps_reboot_node node : keeps I Q (reboot_node w node).
Proof. unfold reboot_node. keeps_tac. Qed.
#[local] Hint Resolve keeps_reboot_node : keeps.

Lemma keeps_hostname node : keeps I Q (hostname node).
Proof. destruct node; simpl; keeps_tac. Qed.
#[local] Hint Resolve keeps_hostname : keeps.

Lemma keeps_phases args node : keeps I Q (phases w args node).
Proof. unfold phases. keeps_tac. Qed.
#[local] Hint Resolve keeps_phases : keeps.

(** *** The script *)

Section ScriptKeeps.

Hypothesis I_set_artifacts_storage : forall a s, I s -> I (set_artifacts_storage a s).
Hypothesis I_set_v_lease : forall node ssid s, I s -> I (set_v_lease node ssid s).
Hypothesis I_set_v_artifacts_dir : forall d s, I s -> I (set_v_artifacts_dir d s).
Hypothesis I_set_v_rc : forall rc s, I s -> I (set_v_rc rc s).

Variable args : Args.t.

Lemma keeps_workflow node : keeps I Q (workflow w args node).
Proof.
  unfold workflow, setup_artifacts_storage.
  apply keeps_bind; [|intros _; apply keeps_phases].
  apply keeps_bind; [apply keeps_checkpoint|]. intros _.
  apply keeps_bind; [apply keeps_emit, ok_other; reflexivity|]. intros _.
  apply keeps_bind; [apply keeps_modify; auto|]. intros _.
  apply keeps_modify; auto.
Qed.
#[local] Hint Resolve keeps_workflow : keeps.

Lemma keeps_main_try_body : keeps I Q (main_try_body w args).
Proof.
  unfold main_try_body.
  apply keeps_bind; [apply keeps_allocate_node|]. intros r.
  apply keeps_bind; [apply keeps_modify; auto|]. intros _.
  unfold sys_exit. keeps_tac.
Qed.

Lemma keeps_main_except e : keeps I Q (main_except w e).
Proof.
  unfold main_except. apply keeps_bind; [apply keeps_checkpoint|]. intros _.
  destruct (is_SignalException e); [apply keeps_ret|].
  apply keeps_bind; [apply keeps_log|]. intros _. apply keeps_modify; auto.
Qed.

Lemma keeps_index_step : keeps I Q (index_step w args).
Proof. unfold index_step. keeps_tac. Qed.

(** *** With [signal.signal] *)

Section SignalKeeps.

Hypothesis I_set_disposition : forall sg d s, I s -> I (set_disposition sg d s).

Lemma keeps_signal_signal sg d : keeps I Q (signal_signal sg d).
Proof.
  apply keeps_bind; [apply keeps_emit, ok_other; reflexivity|]. intros _.
  apply keeps_modify; auto.
Qed.
#[local] Hint Resolve keeps_signal_signal : keeps.

Lemma keeps_main : keeps I Q (main w args).
Proof.
  assert (Htry : keeps I Q (main_try w args)).
  { unfold main_try, install_handlers.
    apply keeps_bind; [keeps_tac|]. intros _. apply keeps_main_try_body. }
  assert (Hrelease : keeps I Q (release_step w))
    by (unfold release_step, mask_signals, restore_signals; keeps_tac).
  assert (Hfinally : keeps I Q (main_finally w args)).
  { unfold main_finally. apply keeps_bind; [|intros _; apply keeps_index_step].
    destruct (negb (Args.keep args)); [exact Hrelease | apply keeps_ret]. }
  assert (Hjob : keeps I Q (main_job w args)).
  { unfold main_job, sys_exit.
    apply keeps_bind; [apply keeps_modify; auto|]. intros _.
    apply keeps_bind; [|intros _; keeps_tac].
    apply keeps_try_finally; [|exact Hfinally].
    apply keeps_try_except; [exact Htry | apply keeps_main_except]. }
  unfold main, sys_exit. keeps_tac.
Qed.

End SignalKeeps.

End ScriptKeeps.

End Keeps.

(** ** Signals while the handler is installed *)

Lemma armed_deliver due : keeps armed survives (deliver due).
Proof.
  intros s [Ht Hh]. destruct due as [sg|]; simpl; [|repeat split; assumption].
  destruct sg; simpl; rewrite ?Ht, ?Hh; repeat split; assumption.
Qed.

Lemma armed_main_try_body w args : keeps armed survives (main_try_body w args).
Proof.
  apply (keeps_main_try_body armed survives (fun _ => True) w);
    try (intros; exact I); try (intros; assumption); auto using armed_deliver.
Qed.

Lemma armed_main_except w e : keeps armed survives (main_except w e).
Proof.
  apply (keeps_main_except armed survives (fun _ => True) w);
    try (intros; exact I); try (intros; assumption); auto using armed_deliver.
Qed.

Lemma main_try_survives w args s :
  armed (main_try w args s).2 /\ survives (fate_of (main_try w args s).1).
Proof.
  unfold main_try.
  rewrite (bind_Ret _ _ _ tt (install_handlers s).2) by reflexivity.
  apply armed_main_try_body. split; reflexivity.
Qed.

Lemma after_try_survives w args s :
  let after_try := try_except (main_try w args) is_Exception (main_except w) s in
  armed after_try.2 /\ survives (fate_of after_try.1).
Proof.
  intros after_try. subst after_try. unfold try_except.
  destruct (main_try_survives w args s) as [Harm Hlive].
  destruct (main_try w args s) as [[[]|e|sg] s1]; simpl in *; [auto | | auto].
  destruct (is_Exception e); [|auto].
  apply armed_main_except. exact Harm.
Qed.

(** X10: from the installation of the handlers to the [finally] block no
    termination signal kills the job: whatever signals arrive, and
    whenever, the [try] block with its [except] clauses ends with a value
    or an exception, and both handlers are still installed then. *)
Theorem try_block_survives_signals w args s :
  let after_try := try_except (main_try w args) is_Exception (main_except w) s in
  (forall sg, after_try.1 <> Killed sg)
  /\ on_sigterm after_try.2 = Handler
  /\ on_sighup after_try.2 = Handler.
Proof.
  intros after_try. destruct (after_try_survives w args s) as [[Ht Hh] Hlive].
  fold after_try in Ht, Hh, Hlive. repeat split; try assumption.
  intros sg Hk. rewrite Hk in Hlive. exact Hlive.
Qed.

(** X11: whatever signals arrive while the [try] block and the [except]
    clauses run, a job without [--keep] in which [ssid] is bound when the
    [try] statement ends and whose [finally] block gets as far as the
    masked state (lines 463 and 464 have run) sends exactly one release
    request, for the session [ssid] is bound to, whatever happens
    afterwards. *)
Theorem lease_is_released_once_signals_are_masked w args ssid r s2 s3 :
  Args.keep args = false ->
  try_except (main_try w args) is_Exception (main_except w) (set_v_rc 0 (__init__ None))
    = (r, s2) ->
  v_ssid s2 = Some ssid ->
  mask_signals w s2 = (Ret tt, s3) ->
  releases (trace (main_job w args (__init__ None)).2) = [ssid].
Proof.
  intros Hkeep Htry Hssid Hmask.
  destruct (after_try_survives w args (set_v_rc 0 (__init__ None))) as [_ Hlive].
  rewrite Htry in Hlive. simpl in Hlive.
  rewrite (main_job_releases_bound_ssid w args r s2 s3 Htry); [| |exact Hkeep|exact Hmask].
  - rewrite Hssid. reflexivity.
  - intros sg ->. exact Hlive.
Qed.

Lemma lease_is_released_once_signals_are_masked_witness :
  let w := world_of toy_loads [body_host1] [0; 0]
             [None; None; None; Some SIGHUP; Some SIGTERM; None; None;
              Some SIGTERM; Some SIGHUP; Some SIGTERM] true in
  releases (trace (main_job w default_args (__init__ None)).2) = [JStr "abc"].
Proof.
  intros w.
  apply (lease_is_released_once_signals_are_masked w default_args (JStr "abc")
           (Exc SignalException)
           (try_except (main_try w default_args) is_Exception (main_except w)
              (set_v_rc 0 (__init__ None))).2
           (masked (try_except (main_try w default_args) is_Exception (main_except w)
                      (set_v_rc 0 (__init__ None))).2)).
  - reflexivity.
  - vm_compute. reflexivity.
  - vm_compute. reflexivity.
  - vm_compute. reflexivity.
Defined.

(** In that run the job is cancelled during its bootstrap command, a
    second signal makes the [except] clause raise, the release request goes
    through a further signal, and the SIGTERM that is due in front of line
    470 kills the process. *)
Example signals_around_the_release :
  let w := world_of toy_loads [body_host1] [0; 0]
             [None; None; None; Some SIGHUP; Some SIGTERM; None; None;
              Some SIGTERM; Some SIGHUP; Some SIGTERM] true in
  let run := main_job w default_args (__init__ None) in
  exit_status run.1 = KilledBy SIGTERM
  /\ length (execs (trace run.2)) = 2%nat.
Proof. vm_compute. auto. Qed.

(** ** The requests to the pool *)

Lemma known_request_snoc w tr e :
  known_request w e -> Forall (known_request w) tr -> Forall (known_request w) (tr ++ [e]).
Proof. intros He Htr. apply Forall_app. split; [exact Htr | repeat constructor; exact He]. Qed.

Lemma known_deliver w due :
  keeps (fun s => Forall (known_request w) (trace s)) (fun _ => True) (deliver due).
Proof.
  intros s Hs. destruct due as [sg|]; simpl; [|auto].
  destruct (disposition_of s sg); [auto | auto |].
  simpl. split; [|exact I]. apply known_request_snoc; [exact I | exact Hs].
Qed.

Lemma known_perform w c :
  keeps (fun s => Forall (known_request w) (trace s)) (fun _ => True) (perform w c).
Proof.
  assert (Hemit : forall e s, known_request w e ->
            Forall (known_request w) (trace s) ->
            Forall (known_request w) (trace (emit e s)))
    by (intros e s He Hs; apply known_request_snoc; assumption).
  assert (Hother : forall e, is_http e = false -> known_request w e)
    by (intros [] H; try exact I; discriminate H).
  assert (Hapi : forall endpoint payload, endpoint ∈ endpoints ->
            known_request w (EHttp (API_BASE +:+ endpoint)
                                   (<["key" := JStr (duffy_key w)]> payload))).
  { intros endpoint payload Hin. split; [eauto|]. apply lookup_insert_eq. }
  assert (Hdrop : forall A (m : M A),
            keeps (fun s => Forall (known_request w) (trace s)) (fun _ => True) m ->
            keeps (fun s => Forall (known_request w) (trace s)) (fun _ => True)
                  (m ;; ret tt)).
  { intros A m Hm. apply (keeps_bind _ (fun _ => True)); [exact Hm|].
    intros _ s Hs. auto. }
  destruct c; simpl.
  - apply Hdrop, (keeps_allocate_node _ _ (known_request w) w); auto using known_deliver.
  - apply Hdrop, (keeps_allocated_nodes _ _ (known_request w) w); auto using known_deliver.
  - apply Hdrop, (keeps_execute_local_command _ _ (known_request w) w);
      auto using known_deliver.
  - apply Hdrop, (keeps_execute_remote_command _ _ (known_request w) w);
      auto using known_deliver.
  - apply Hdrop, (keeps_fetch_artifacts _ _ (known_request w) w); auto using known_deliver.
  - apply (keeps_free_all_nodes _ _ (known_request w) w); auto using known_deliver.
  - apply (keeps_free_session _ _ (known_request w) w); auto using known_deliver.
  - apply (keeps_reboot_node _ _ (known_request w) w); auto using known_deliver.
  - apply Hdrop, (keeps_upload_file _ _ (known_request w) w); auto using known_deliver.
  - intros s Hs. auto.
  - apply (keeps_main _ _ (known_request w) w); auto using known_deliver.
Qed.

(** X12: every HTTP request that the methods or the script ever send goes
    to one of the endpoints [/Node/get], [/Node/done] and [/Inventory]
    under [API_BASE] and carries the key, whatever the calls, the pool's
    answers and the signals. *)
Theorem every_request_carries_the_key w artifacts calls :
  Forall (known_request w) (trace (perform_all w calls (__init__ artifacts))).
Proof.
  assert (H : forall s, Forall (known_request w) (trace s) ->
                        Forall (known_request w) (trace (perform_all w calls s))).
  { induction calls as [|c calls IH]; intros s Hs; simpl; [exact Hs|].
    destruct (known_perform w c s Hs) as [Hc _].
    destruct (perform w c s) as [[[]|e|sg] s']; simpl in Hc; auto. }
  apply H. constructor.
Qed.

(** ** A job without a Lease *)

Lemma execs_deliver due s : execs (trace (deliver due s).2) = execs (trace s).
Proof.
  destruct due as [sg|]; simpl; [|reflexivity].
  destruct (disposition_of s sg); [reflexivity | reflexivity |].
  simpl. rewrite execs_app. simpl. apply app_nil_r.
Qed.

Lemma execs_blocking w s : execs (trace (blocking w s).2) = execs (trace s).
Proof. unfold blocking. rewrite execs_deliver. reflexivity. Qed.

Lemma execs_api w endpoint payload s :
  execs (trace (_execute_api_command w endpoint payload s).2) = execs (trace s).
Proof.
  unfold _execute_api_command, requests_get, bind, get, modify.
  pose proof (execs_blocking w
    (next_http (emit (EHttp (API_BASE +:+ endpoint)
                            (<["key" := JStr (duffy_key w)]> payload)) s))) as Hb.
  destruct (blocking w _) as [[[]|e|sg] s']; simpl in *;
    rewrite Hb, execs_app; simpl; apply app_nil_r.
Qed.

Lemma execs_time_sleep w t s : execs (trace (time_sleep w t s).2) = execs (trace s).
Proof.
  unfold time_sleep, bind, modify.
  pose proof (execs_blocking w (emit (ESleep t) s)) as Hb.
  destruct (blocking w _) as [[[]|e|sg] s']; simpl in *;
    rewrite Hb, execs_app; simpl; apply app_nil_r.
Qed.

Lemma execs_attempt w payload jroot s :
  execs (trace (attempt w payload jroot s).2) = execs (trace s).
Proof.
  unfold attempt, bind at 1.
  pose proof (execs_api w "/Node/get" payload s) as Hapi.
  destruct (_execute_api_command w "/Node/get" payload s) as [[res|e|sg] s1];
    simpl in Hapi; [|exact Hapi..].
  destruct (json_loads w res) as [j|].
  - unfold bind at 1. pose proof (has_fields_pure j s1) as Hp.
    destruct (has_fields j s1) as [[[]|e|sg] s2]; simpl in Hp; subst s2; simpl;
      rewrite ?execs_app, ?app_nil_r; exact Hapi.
  - simpl. rewrite execs_app, app_nil_r. exact Hapi.
Qed.

Lemma execs_allocate_loop w payload : forall timeouts jroot s,
  execs (trace (allocate_loop w timeouts payload jroot s).2) = execs (trace s).
Proof.
  induction timeouts as [|t rest IH]; intros jroot s; [reflexivity|].
  simpl allocate_loop. unfold bind at 1.
  pose proof (execs_attempt w payload jroot s) as Hatt.
  destruct (attempt w payload jroot s) as [[[j brk]|e|sg] s1]; simpl in Hatt;
    [|exact Hatt..].
  destruct brk; simpl; [exact Hatt|].
  unfold bind at 1. pose proof (execs_time_sleep w t s1) as Hsl.
  destruct (time_sleep w t s1) as [[[]|e|sg] s2]; simpl in Hsl;
    [|simpl; congruence..].
  rewrite IH. congruence.
Qed.

Lemma execs_extract_lease jroot s :
  execs (trace (extract_lease jroot s).2) = execs (trace s).
Proof.
  destruct (extract_lease_state jroot s) as [-> | ->]; [reflexivity|].
  simpl. rewrite execs_app, app_nil_r. reflexivity.
Qed.

(** The allocation spawns no process. *)
Lemma execs_allocate_node w version architecture s :
  execs (trace (allocate_node w version architecture s).2) = execs (trace s).
Proof.
  unfold allocate_node, bind.
  pose proof (execs_allocate_loop w
    (<["arch" := JStr architecture]> {["ver" := JStr version]}) backoff None s) as Hl.
  destruct (allocate_loop w backoff _ None s) as [[jroot|e|sg] s1]; simpl in Hl;
    [|exact Hl..].
  rewrite execs_extract_lease. exact Hl.
Qed.

Lemma index_step_unbound w args s :
  v_artifacts_dir s = None ->
  index_step w args s
  = (if index_on w args then Exc (NameError "artifacts_dir") else Ret tt, s).
Proof.
  intros Hv. unfold index_step. fold (index_on w args).
  destruct (index_on w args); [|reflexivity].
  rewrite (bind_Ret _ _ _ None s) by (unfold get; rewrite Hv; reflexivity).
  reflexivity.
Qed.

(** With no artifacts directory the [finally] block spawns nothing and
    ends normally or with a [NameError], when no signal is due. *)
Lemma main_finally_no_artifacts w args s :
  v_artifacts_dir s = None ->
  calm w (n_block s) [] ->
  exists r s',
    main_finally w args s = (r, s')
    /\ (r = Ret tt \/ exists name, r = Exc (NameError name))
    /\ execs (trace s') = execs (trace s)
    /\ v_rc s' = v_rc s
    /\ (n_block s <= n_block s')%nat.
Proof.
  intros Hdir Hcalm. unfold main_finally.
  destruct (Args.keep args); simpl negb; cbv iota.
  - rewrite (bind_Ret _ _ _ tt s) by reflexivity.
    rewrite index_step_unbound by assumption.
    eexists _, s. split; [reflexivity|].
    destruct (index_on w args); eauto 7.
  - destruct (v_ssid s) as [ssid|] eqn:Hssid.
    + rewrite (bind_Ret _ _ _ tt (released w ssid s)).
      2: { apply release_step_bound; [exact Hssid|].
           intros i Hi _. apply (calm_nil w (n_block s)); assumption. }
      rewrite index_step_unbound by exact Hdir.
      eexists _, _. split; [reflexivity|].
      split; [destruct (index_on w args); eauto|].
      split; [|split; [reflexivity|simpl; lia]].
      unfold released, restored, half_restored, requested_release, masked. simpl.
      rewrite !execs_app. simpl. rewrite !app_nil_r. reflexivity.
    + rewrite (bind_Exc _ _ _ (NameError "ssid") (masked s)).
      2: { apply release_step_unbound; [|exact Hssid].
           apply mask_signals_calm; apply (calm_nil w (n_block s)); auto; lia. }
      eexists _, _. split; [reflexivity|]. split; [eauto|].
      split; [|split; [reflexivity|simpl; lia]].
      unfold masked. simpl. rewrite !execs_app. simpl. rewrite !app_nil_r. reflexivity.
Qed.

(** A job whose [try] block has ended on a failure before the artifacts
    directory exists exits with 1 and spawns nothing further, when no
    signal is due afterwards. *)
Lemma main_job_failed_early w args s rt s2 :
  try_except (main_try w args) is_Exception (main_except w) (set_v_rc 0 s) = (rt, s2) ->
  v_artifacts_dir s2 = None ->
  rt = Exc (SystemExit 1) \/ (rt = Ret tt /\ v_rc s2 = 1) ->
  calm w (n_block s2) [] ->
  exit_status (main_job w args s).1 = Exited 1
  /\ execs (trace (main_job w args s).2) = execs (trace s2).
Proof.
  intros Htry Hdir Hrt Hcalm.
  destruct (main_finally_no_artifacts w args s2 Hdir Hcalm)
    as (r & s' & Hfin & Hr & Hex & Hrc & Hn).
  assert (Hjob : exists e s'', main_job w args s = (Exc e, s'')
                           /\ exit_status (Exc e) = Exited 1
                           /\ execs (trace s'') = execs (trace s')).
  { unfold main_job.
    rewrite (bind_Ret _ _ _ tt (set_v_rc 0 s)) by reflexivity.
    destruct Hrt as [-> | [-> Hrc2]].
    - destruct Hr as [-> | [name ->]]; eexists _, s'; (split; [apply bind_Exc|]);
        try (unfold try_finally; rewrite Htry, Hfin; reflexivity); split; reflexivity.
    - destruct Hr as [-> | [name ->]].
      + exists (SystemExit 1), (next_block s'). split; [|split; reflexivity].
        rewrite (bind_Ret _ _ _ tt s')
          by (unfold try_finally; rewrite Htry, Hfin; reflexivity).
        rewrite (bind_Ret _ _ _ tt (next_block s'))
          by (apply checkpoint_calm, (calm_nil w (n_block s2)); assumption).
        unfold bind, get, sys_exit, raise. simpl. rewrite Hrc, Hrc2. reflexivity.
      + eexists _, s'. split; [apply bind_Exc|];
          try (unfold try_finally; rewrite Htry, Hfin; reflexivity); split; reflexivity. }
  destruct Hjob as (e & s'' & -> & Hst & Hex'). split; [exact Hst|].
  simpl. rewrite Hex'. exact Hex.
Qed.

(** X13: a job whose allocation ends without a Lease (a pair with a
    [None] in it, or an exception other than the signal handler's) runs no
    phase and spawns no process at all, the index generation included, and
    the process exits with status 1, when no signal is due after the
    allocation has ended. *)
Theorem job_without_lease_exits_with_1 w args r s1 :
  allocate_node w (Args.version args) (Args.arch args)
    (install_handlers (set_v_rc 0 (__init__ None))).2 = (r, s1) ->
  allocation_failed r ->
  calm w (n_block s1) [] ->
  exit_status (main_job w args (__init__ None)).1 = Exited 1
  /\ execs (trace (main_job w args (__init__ None)).2) = [].
Proof.
  intros Halloc Hfail Hcalm.
  pose proof (script_vars_allocate_node w (Args.version args) (Args.arch args)
                (install_handlers (set_v_rc 0 (__init__ None))).2) as Hvars.
  pose proof (execs_allocate_node w (Args.version args) (Args.arch args)
                (install_handlers (set_v_rc 0 (__init__ None))).2) as Hex.
  rewrite Halloc in Hvars, Hex. simpl in Hvars, Hex.
  unfold script_vars in Hvars. injection Hvars as _ _ Hdir _.
  assert (Hnow : sigs w (n_block s1) = None)
    by (apply (calm_nil w (n_block s1)); auto).
  assert (Hlater : calm w (S (n_block s1)) []).
  { intros i Hi Hnot. apply Hcalm; [lia | exact Hnot]. }
  destruct r as [[node ssid]|e|sg]; simpl in Hfail; [| |destruct Hfail].
  - destruct (main_job_failed_early w args (__init__ None) (Exc (SystemExit 1))
                (emit (ELog CRITICAL "Can't continue without a valid node")
                      (next_block (set_v_lease node ssid s1)))) as [Hst Htr].
    + unfold try_except, main_try, main_try_body.
      rewrite (bind_Ret _ _ _ tt (install_handlers (set_v_rc 0 (__init__ None))).2)
        by reflexivity.
      rewrite (bind_Ret _ _ _ _ _ Halloc).
      rewrite (bind_Ret _ _ _ tt (set_v_lease node ssid s1)) by reflexivity.
      simpl fst. simpl snd. rewrite Hfail.
      rewrite (bind_Exc _ _ _ (SystemExit 1)
                 (emit (ELog CRITICAL "Can't continue without a valid node")
                       (next_block (set_v_lease node ssid s1)))).
      * reflexivity.
      * rewrite (bind_Ret _ _ _ tt (next_block (set_v_lease node ssid s1)))
          by (apply checkpoint_calm; exact Hnow).
        reflexivity.
    + exact Hdir.
    + left. reflexivity.
    + exact Hlater.
    + split; [exact Hst|]. rewrite Htr. simpl. rewrite execs_app. simpl.
      rewrite app_nil_r. exact Hex.
  - destruct Hfail as [He Hns].
    destruct (main_job_failed_early w args (__init__ None) (Ret tt)
                (set_v_rc 1 (emit (ELog ERROR "Execution failed") (next_block s1))))
      as [Hst Htr].
    + unfold try_except, main_try, main_try_body.
      rewrite (bind_Ret _ _ _ tt (install_handlers (set_v_rc 0 (__init__ None))).2)
        by reflexivity.
      rewrite (bind_Exc _ _ _ _ _ Halloc). rewrite He.
      unfold main_except.
      rewrite (bind_Ret _ _ _ tt (next_block s1)) by (apply checkpoint_calm; exact Hnow).
      rewrite Hns. reflexivity.
    + exact Hdir.
    + right. split; reflexivity.
    + exact Hlater.
    + split; [exact Hst|]. rewrite Htr. simpl. rewrite execs_app. simpl.
      rewrite app_nil_r. exact Hex.
Qed.

Lemma job_without_lease_exits_with_1_witness :
  (* the pool never sends JSON: [allocate_node] raises [UnboundLocalError] *)
  (let w := world_of toy_loads [] [] [] true in
   exit_status (main_job w default_args (__init__ None)).1 = Exited 1
   /\ execs (trace (main_job w default_args (__init__ None)).2) = [])
  /\
  (* the pool sends an empty hosts list: [allocate_node] returns [(None, None)] *)
  (let w := world_of toy_loads [body_no_hosts] [] [] true in
   exit_status (main_job w default_args (__init__ None)).1 = Exited 1
   /\ execs (trace (main_job w default_args (__init__ None)).2) = []).
Proof.
  split; intros w.
  - apply (job_without_lease_exits_with_1 w default_args
             (Exc (UnboundLocalError "jroot"))
             (allocate_node w "7" "x86_64"
                (install_handlers (set_v_rc 0 (__init__ None))).2).2).
    + vm_compute. reflexivity.
    + split; reflexivity.
    + apply quiet_calm, world_of_quiet.
  - apply (job_without_lease_exits_with_1 w default_args
             (Ret (JNull, JNull))
             (allocate_node w "7" "x86_64"
                (install_handlers (set_v_rc 0 (__init__ None))).2).2).
    + vm_compute. reflexivity.
    + reflexivity.
    + apply quiet_calm, world_of_quiet.
Defined.

(** ** A job with [--keep] *)

Lemma armed_index_step w args : keeps armed survives (index_step w args).
Proof.
  apply (keeps_index_step armed survives (fun _ => True) w);
    try (intros; exact I); try (intros; assumption); auto using armed_deliver.
Qed.

Lemma armed_checkpoint w : keeps armed survives (checkpoint w).
Proof. intros s Hs. unfold checkpoint, blocking. apply armed_deliver. exact Hs. Qed.

Lemma keeps_run {A} (I : st -> Prop) (Q : fate -> Prop) (m : M A) s :
  keeps I Q m -> I s -> exists r s', m s = (r, s') /\ Q (fate_of r) /\ I s'.
Proof.
  intros Hm Hs. destruct (Hm s Hs) as [HI HQ]. destruct (m s) as [r s']. eauto.
Qed.

Lemma main_job_keep_survives w args s :
  Args.keep args = true ->
  exists r s',
    main_job w args s = (r, s') /\ survives (fate_of r) /\ armed s'.
Proof.
  intros Hkeep.
  destruct (after_try_survives w args (set_v_rc 0 s)) as [Harm Hlive].
  assert (Hfin : keeps armed survives (main_finally w args)).
  { unfold main_finally. rewrite Hkeep. simpl negb. cbv iota.
    apply (keeps_bind armed survives); [|intros _; apply armed_index_step].
    intros s0 Hs0. split; [exact Hs0 | exact I]. }
  assert (Hrest : keeps armed survives
                    (checkpoint w ;; rc <- get v_rc ;; sys_exit (A:=unit) rc)).
  { apply (keeps_bind armed survives); [apply armed_checkpoint|].
    intros _ s0 Hs0. split; [exact Hs0 | exact I]. }
  unfold main_job.
  rewrite (bind_Ret _ _ _ tt (set_v_rc 0 s)) by reflexivity.
  unfold bind at 1, try_finally.
  destruct (try_except (main_try w args) is_Exception (main_except w) (set_v_rc 0 s))
    as [[[]|e|sg] s1]; simpl in Harm, Hlive; [| |destruct Hlive];
    destruct (Hfin s1 Harm) as [Harm2 Hq];
    destruct (main_finally w args s1) as [[[]|e'|sg'] s2]; simpl in Harm2, Hq;
    try (destruct Hq);
    first [ apply (keeps_run armed survives); assumption
          | eexists _, _; (split; [reflexivity|]); split; simpl; auto ].
Qed.

(** X14: with [--keep] a job never sends a release request and never
    changes the handlers it has installed: whatever signals arrive, none
    kills the process, and both handlers are still installed at the end. *)
Theorem keep_never_releases w args s :
  Args.keep args = true ->
  let run := main_job w args s in
  releases (trace run.2) = releases (trace s)
  /\ (forall sg, run.1 <> Killed sg)
  /\ on_sigterm run.2 = Handler /\ on_sighup run.2 = Handler.
Proof.
  intros Hkeep run. subst run. split.
  - rewrite main_job_releases. unfold due_release. rewrite Hkeep.
    destruct (try_except _ _ _ _).1; apply app_nil_r.
  - destruct (main_job_keep_survives w args s Hkeep) as (r & s' & -> & Hlive & Ht & Hh).
    simpl. split; [|split; assumption].
    intros sg ->. exact Hlive.
Qed.

Lemma keep_never_releases_witness :
  let w := world_of toy_loads [body_host1] []
             [None; None; Some SIGTERM; Some SIGHUP; None; Some SIGTERM] true in
  let args := Args.mk "x86_64" None None false None true false false
                       None None None false "7" in
  let run := main_job w args (__init__ None) in
  releases (trace run.2) = releases (trace (__init__ None))
  /\ (forall sg, run.1 <> Killed sg)
  /\ on_sigterm run.2 = Handler /\ on_sighup run.2 = Handler.
Proof.
  intros w args.
  apply (keep_never_releases w args (__init__ None)).
  reflexivity.
Defined.

(** ** The reboot, in numbers *)

Lemma reboot_node_reachable w node s k :
  quiet w ->
  (k < 10)%nat ->
  (forall i, (i < k)%nat -> proc w (n_proc s + 1 + i) <> 0) ->
  proc w (n_proc s + 1 + k) = 0 ->
  exists s',
    reboot_node w node s = (Ret tt, s')
    /\ trace s' = trace s ++ reboot_prelude node ++ failed_probes node k
                  ++ [EExec (ping_command node); ESleep 30].
Proof.
  intros Hq Hk Hbad Hgood.
  set (s1 := next_block (emit (ESleep 30)
               (spawned (command_wrapper node "systemctl reboot") s))).
  assert (Hping : forall i, proc w (n_proc s1 + i) = proc w (n_proc s + 1 + i)).
  { intros i. simpl. f_equal. lia. }
  destruct (ping_loop_reachable w node (seq 0 10) k None s1 Hq) as (s' & Hrun & Htr).
  - rewrite length_seq. exact Hk.
  - intros i Hi. rewrite Hping. auto.
  - rewrite Hping. exact Hgood.
  - eexists. rewrite reboot_node_prelude by assumption. fold s1.
    rewrite (bind_Ret _ _ _ _ _ Hrun).
    rewrite (bind_Ret _ _ _ 0 s') by reflexivity.
    rewrite (bind_Ret _ _ _ tt s') by reflexivity.
    rewrite time_sleep_quiet by assumption. split; [reflexivity|].
    simpl. rewrite Htr. simpl. rewrite <- !app_assoc. reflexivity.
Qed.

Lemma reboot_node_unreachable w node s :
  quiet w ->
  (forall i, (i < 10)%nat -> proc w (n_proc s + 1 + i) <> 0) ->
  exists s',
    reboot_node w node s = (Exc (Exception reboot_timeout_message), s')
    /\ trace s' = trace s ++ reboot_prelude node ++ failed_probes node 10.
Proof.
  intros Hq Hbad.
  set (s1 := next_block (emit (ESleep 30)
               (spawned (command_wrapper node "systemctl reboot") s))).
  assert (Hping : forall i, proc w (n_proc s1 + i) = proc w (n_proc s + 1 + i)).
  { intros i. simpl. f_equal. lia. }
  destruct (ping_loop_unreachable w node (seq 0 10) None s1 Hq)
    as (rc & s' & Hrun & Htr & Hrc).
  - rewrite length_seq. intros i Hi. rewrite Hping. auto.
  - destruct Hrc as (z & -> & Hz); [discriminate|].
    exists s'. rewrite reboot_node_prelude by assumption. fold s1.
    rewrite (bind_Ret _ _ _ _ _ Hrun).
    rewrite (bind_Ret _ _ _ z s') by reflexivity.
    apply Z.eqb_neq in Hz. rewrite Hz. split; [reflexivity|].
    rewrite Htr, length_seq. simpl. rewrite <- !app_assoc. reflexivity.
Qed.

Lemma execs_failed_probes node k :
  execs (failed_probes node k) = replicate k (ping_command node).
Proof. induction k as [|k IH]; [reflexivity|]. rewrite failed_probes_S. simpl. f_equal. exact IH. Qed.

Lemma sleeps_failed_probes node k : sleeps (failed_probes node k) = replicate k 15.
Proof. induction k as [|k IH]; [reflexivity|]. rewrite failed_probes_S. simpl. f_equal. exact IH. Qed.

Lemma total_sleep_app l1 l2 : total_sleep (l1 ++ l2) = total_sleep l1 + total_sleep l2.
Proof. unfold total_sleep. induction l1 as [|x l1 IH]; simpl; lia. Qed.

Lemma total_sleep_replicate k t : total_sleep (replicate k t) = Z.of_nat k * t.
Proof. unfold total_sleep. induction k as [|k IH]; simpl replicate; simpl foldr; lia. Qed.

(** X15: a reboot is bounded: after the reboot command [reboot_node]
    spawns between one and ten probes and nothing else, and it sleeps at
    most 195 seconds in all (the cooldown, 15 s after each failed probe,
    the settle delay). *)
Theorem reboot_node_is_bounded w node s :
  quiet w ->
  exists probes waits,
    execs (trace (reboot_node w node s).2)
    = execs (trace s) ++ command_wrapper node "systemctl reboot"
                      :: replicate probes (ping_command node)
    /\ (1 <= probes <= 10)%nat
    /\ sleeps (trace (reboot_node w node s).2) = sleeps (trace s) ++ waits
    /\ 30 <= total_sleep waits <= 195.
Proof.
  intros Hq.
  destruct (first_success (fun i => proc w (n_proc s + 1 + i)) 10)
    as [Hall | (k & Hk & Hbad & Hgood)].
  - destruct (reboot_node_unreachable w node s Hq Hall) as (s' & -> & Htr).
    exists 10%nat, (30 :: replicate 10 15). simpl fst. simpl snd. rewrite Htr.
    rewrite !execs_app, !sleeps_app, execs_failed_probes, sleeps_failed_probes.
    repeat split; try lia; try reflexivity; vm_compute; discriminate.
  - destruct (reboot_node_reachable w node s k Hq Hk Hbad Hgood) as (s' & -> & Htr).
    exists (S k), (30 :: replicate k 15 ++ [30]). simpl snd. rewrite Htr.
    rewrite !execs_app, !sleeps_app, execs_failed_probes, sleeps_failed_probes.
    split; [|split; [lia|split]].
    + simpl. f_equal. f_equal. clear. induction k as [|k IH]; [reflexivity|].
      simpl. f_equal. exact IH.
    + reflexivity.
    + change (30 :: replicate k 15 ++ [30]) with ([30] ++ replicate k 15 ++ [30]).
      rewrite !total_sleep_app, total_sleep_replicate. unfold total_sleep. simpl. lia.
Qed.

Lemma reboot_node_is_bounded_witness :
  let w := world_of toy_loads [] [255; 1; 1; 0] [] true in
  exists probes waits,
    execs (trace (reboot_node w "host1" (__init__ None)).2)
    = execs (trace (__init__ None)) ++ command_wrapper "host1" "systemctl reboot"
                      :: replicate probes (ping_command "host1")
    /\ (1 <= probes <= 10)%nat
    /\ sleeps (trace (reboot_node w "host1" (__init__ None)).2)
       = sleeps (trace (__init__ None)) ++ waits
    /\ 30 <= total_sleep waits <= 195.
Proof.
  intros w.
  apply (reboot_node_is_bounded w "host1" (__init__ None)).
  apply world_of_quiet.
Defined.

(** ** A host that is no string *)

Lemma no_release_allocate_node w version architecture :
  no_release (allocate_node w version architecture).
Proof.
  apply (preserves_allocate_node _ (fun e => negb (is_release e)));
    auto using releases_emit_other, harmless_negb.
Qed.

(** X16: when the pool's first host is not a string (and not [null]), the
    first remote command raises [TypeError] before anything is spawned: no
    phase runs, the session is released all the same (unless [--keep]),
    the only process is the index generation, and the exit status is 1.
    No signal is due after the allocation, unless during the release
    request. *)
Theorem non_string_host_runs_no_phase w args node ssid s1 :
  allocate_node w (Args.version args) (Args.arch args)
    (install_handlers (set_v_rc 0 (__init__ None))).2 = (Ret (node, ssid), s1) ->
  is_None node = false ->
  is_None ssid = false ->
  (forall host, node <> JStr host) ->
  calm w (n_block s1) [release_point (S (n_block s1))] ->
  exists s3,
    main_job w args (__init__ None) = (Exc (SystemExit 1), s3)
    /\ execs (trace s3) = execs (index_events w args)
    /\ releases (trace s3) = if Args.keep args then [] else [ssid].
Proof.
  intros Halloc Hnode Hssid Hns Hcalm.
  assert (Hsig : forall i, (n_block s1 <= i)%nat -> i <> (n_block s1 + 4)%nat ->
                           sigs w i = None).
  { intros i Hi Hne. apply (calm_one w (n_block s1) (release_point (S (n_block s1))));
      [exact Hcalm | exact Hi | unfold release_point; lia]. }
  pose proof (execs_allocate_node w (Args.version args) (Args.arch args)
                (install_handlers (set_v_rc 0 (__init__ None))).2) as Hex.
  pose proof (no_release_allocate_node w (Args.version args) (Args.arch args)
                (install_handlers (set_v_rc 0 (__init__ None))).2) as Hrel.
  rewrite Halloc in Hex, Hrel. simpl in Hex, Hrel.
  set (s2 := set_artifacts_storage (Some (mkdtemp w))
               (set_v_artifacts_dir (mkdtemp w)
                  (emit (EMkdtemp (mkdtemp w))
                     (next_block (set_v_lease node ssid s1))))).
  assert (Htry : main_try w args (set_v_rc 0 (__init__ None)) = (Exc TypeError, s2)).
  { unfold main_try, main_try_body.
    rewrite (bind_Ret _ _ _ tt (install_handlers (set_v_rc 0 (__init__ None))).2)
      by reflexivity.
    rewrite (bind_Ret _ _ _ _ _ Halloc).
    rewrite (bind_Ret _ _ _ tt (set_v_lease node ssid s1)) by reflexivity.
    simpl fst. simpl snd. rewrite Hnode, Hssid. simpl orb. cbv iota.
    rewrite (bind_Ret _ _ _ tt (set_v_lease node ssid s1)) by reflexivity.
    apply bind_Exc. unfold workflow.
    rewrite (bind_Ret _ _ _ tt s2).
    - unfold phases. apply bind_Exc.
      destruct node; try reflexivity. destruct (Hns s eq_refl).
    - unfold setup_artifacts_storage.
      rewrite (bind_Ret _ _ _ tt (next_block (set_v_lease node ssid s1)))
        by (apply checkpoint_calm, Hsig; simpl; lia).
      reflexivity. }
  destruct (main_except_calm w TypeError s2) as (s2' & Hexc & Htr2 & Hvars & Hn2).
  { apply Hsig; simpl; lia. }
  unfold script_vars in Hvars. simpl in Hvars, Hn2. injection Hvars as _ Hssid2 Hdir2 Hrc2.
  destruct (main_finally_run w args ssid s2') as (s3 & Hfin & Htr & Hrc & Hlast).
  - exact Hssid2.
  - intros _. exact Hdir2.
  - intros i Hi Hne. apply Hsig; lia.
  - exists (next_block s3). split; [|split].
    + replace 1 with (v_rc s3) by (rewrite Hrc; exact Hrc2).
      apply (main_job_exit w args _ s2'); [|exact Hfin|exact Hlast].
      unfold try_except. rewrite Htry. exact Hexc.
    + simpl trace. rewrite Htr, Htr2. simpl trace. rewrite !execs_app, Hex.
      unfold release_events. destruct (Args.keep args); reflexivity.
    + simpl trace. rewrite Htr, Htr2. simpl trace. rewrite !releases_app, Hrel.
      unfold release_events, index_events.
      destruct (Args.keep args), (index_on w args); reflexivity.
Qed.

Lemma non_string_host_runs_no_phase_witness :
  let w := world_of more_loads [body_numeric_host] []
             [None; None; None; None; None; Some SIGTERM] true in
  exists s3,
    main_job w default_args (__init__ None) = (Exc (SystemExit 1), s3)
    /\ execs (trace s3) = execs (index_events w default_args)
    /\ releases (trace s3) = if Args.keep default_args then [] else [JStr "abc"].
Proof.
  intros w.
  apply (non_string_host_runs_no_phase w default_args (JNum 7) (JStr "abc")
           (allocate_node w "7" "x86_64"
              (install_handlers (set_v_rc 0 (__init__ None))).2).2).
  - vm_compute. reflexivity.
  - reflexivity.
  - reflexivity.
  - discriminate.
  - intros i Hi Hnot. vm_compute in Hnot.
    do 6 (destruct i as [|i]; [first [reflexivity | exfalso; apply Hnot; set_solver]|]).
    destruct i; reflexivity.
Defined.

(** ** A job in which every command succeeds *)

Section Success.

Variable w : world.
Hypothesis Hq : quiet w.
Hypothesis Hzero : forall n, proc w n = 0.

Lemma spawns_ret {A} (a : A) : spawns w (ret a) [].
Proof. intros s Hs. exists a, s. rewrite app_nil_r. auto. Qed.

Lemma spawns_bind {A C} (m : M A) (k : A -> M C) c1 c2 :
  spawns w m c1 -> (forall a, spawns w (k a) c2) -> spawns w (bind m k) (c1 ++ c2).
Proof.
  intros Hm Hk s Hs. destruct (Hm s Hs) as (a & s1 & Hrun & Hex & Hst).
  destruct (Hk a s1 Hst) as (c & s2 & Hrun2 & Hex2 & Hst2).
  exists c, s2. rewrite (bind_Ret _ _ _ _ _ Hrun), Hex2, Hex, app_assoc. auto.
Qed.

Lemma spawns_execute_local_command command :
  spawns w (execute_local_command w command) [command].
Proof.
  intros s Hs. eexists _, _. rewrite execute_local_command_quiet by assumption.
  split; [reflexivity|]. split; [|exact Hs]. simpl. apply execs_app.
Qed.

Lemma spawns_execute_remote_command host command artifacts_dir :
  spawns w (execute_remote_command w host command 0 artifacts_dir false)
    (command_wrapper host command ::
     match artifacts_dir with
     | Some remote => [fetch_command host remote (mkdtemp w)]
     | None => []
     end).
Proof.
  intros s Hs. eexists _, _. rewrite execute_remote_command_quiet by assumption.
  rewrite Hzero. split; [reflexivity|].
  unfold fetched, spawned. simpl artifacts_storage. rewrite Hs.
  destruct artifacts_dir as [remote|].
  - rewrite !Hzero. simpl. rewrite !execs_app, <- app_assoc. auto.
  - simpl. rewrite execs_app. auto.
Qed.

Lemma spawns_reboot_node host :
  spawns w (reboot_node w host)
    [command_wrapper host "systemctl reboot"; ping_command host].
Proof.
  intros s Hs.
  destruct (reboot_node_reachable w host s 0 Hq) as (s' & Hrun & Htr);
    [lia | intros i Hi; lia | apply Hzero |].
  assert (Hst : artifacts_storage s' = artifacts_storage s).
  { pose proof (preserves_reboot_node artifacts_storage (fun _ => true)
                  (fun _ _ _ => eq_refl) (fun _ => eq_refl) (fun _ => eq_refl)
                  (fun _ _ => eq_refl) w host s) as Hp.
    rewrite Hrun in Hp. exact Hp. }
  exists tt, s'. split; [exact Hrun|]. split; [|congruence].
  rewrite Htr, !execs_app. reflexivity.
Qed.

Lemma spawns_upload_file host local_source remote_target :
  spawns w (upload_file w host local_source remote_target)
    [upload_command host local_source remote_target].
Proof. apply spawns_execute_local_command. Qed.

Lemma spawns_eq {A} (m : M A) c c' : spawns w m c -> c = c' -> spawns w m c'.
Proof. intros H <-. exact H. Qed.

Ltac spawns_tac :=
  repeat lazymatch goal with
  | |- spawns _ (ret _) _ => apply spawns_ret
  | |- spawns _ (execute_remote_command _ _ _ _ _ _) _ =>
      apply spawns_execute_remote_command
  | |- spawns _ (reboot_node _ _) _ => apply spawns_reboot_node
  | |- spawns _ (upload_file _ _ _ _) _ => apply spawns_upload_file
  | |- spawns _ (bind _ _) _ => eapply spawns_bind; [|intros ?]
  end.

Lemma spawns_bind_ret {A C} (a : A) (k : A -> M C) c :
  spawns w (k a) c -> spawns w (bind (ret a) k) c.
Proof. intros H s Hs. exact (H s Hs). Qed.

Lemma spawns_phases args host :
  spawns w (phases w args (JStr host)) (phase_commands w args host).
Proof.
  unfold phases, phase_commands.
  change (hostname (JStr host)) with (ret (A:=string) host).
  apply spawns_bind_ret.
  destruct (truthy (Args.ci_pr args)), (Args.vagrant_sync args),
           (truthy (Args.vagrant args));
    cbv iota; (eapply spawns_eq; [spawns_tac | reflexivity]).
Qed.

End Success.

Lemma no_release_phases w args node : no_release (phases w args node).
Proof.
  apply (preserves_phases _ (fun e => negb (is_release e)));
    auto using releases_emit_other, harmless_negb.
Qed.

(** X17: when the pool answers the first request with a host and a
    session and every spawned process exits with 0, the job runs its
    phases in the order of the script, each remote command with an
    artifacts path followed by its copy, the reboot and one probe between
    bootstrap and testsuite; it then releases the session once (unless
    [--keep]), generates the index and exits with 0. *)
Theorem successful_job_runs_phases_in_order w args m host hosts ssid :
  quiet w ->
  (forall n, proc w n = 0) ->
  json_loads w (http w 0) = Some (JObj m) ->
  m !! "hosts" = Some (JArr (JStr host :: hosts)) ->
  m !! "ssid" = Some ssid ->
  is_None ssid = false ->
  exists s',
    main_job w args (__init__ None) = (Exc (SystemExit 0), s')
    /\ execs (trace s') = phase_commands w args host ++ execs (index_events w args)
    /\ releases (trace s') = if Args.keep args then [] else [ssid].
Proof.
  intros Hq Hzero Hj Hh Hs Hvalid.
  set (sa := (install_handlers (set_v_rc 0 (__init__ None))).2).
  assert (Halloc : exists s1,
            allocate_node w (Args.version args) (Args.arch args) sa
            = (Ret (JStr host, ssid), s1)).
  { unfold allocate_node.
    destruct (allocate_loop_break w
                (<["arch" := JStr (Args.arch args)]> {["ver" := JStr (Args.version args)]})
                m backoff 0%nat None sa Hq) as (s1 & Hrun & _).
    - simpl. lia.
    - intros i Hi. lia.
    - exact Hj.
    - eauto.
    - eauto.
    - exists s1. rewrite (bind_Ret _ _ _ _ _ Hrun).
      apply (extract_lease_lease m (JStr host) hosts ssid); assumption. }
  destruct Halloc as (s1 & Halloc).
  pose proof (execs_allocate_node w (Args.version args) (Args.arch args) sa) as Hex.
  pose proof (no_release_allocate_node w (Args.version args) (Args.arch args) sa) as Hrel.
  pose proof (script_vars_allocate_node w (Args.version args) (Args.arch args) sa) as Hvars.
  rewrite Halloc in Hex, Hrel, Hvars. simpl in Hex, Hrel, Hvars.
  unfold script_vars in Hvars. injection Hvars as _ _ _ Hrc1.
  set (s2 := set_artifacts_storage (Some (mkdtemp w))
               (set_v_artifacts_dir (mkdtemp w)
                  (emit (EMkdtemp (mkdtemp w))
                     (next_block (set_v_lease (JStr host) ssid s1))))).
  destruct (spawns_phases w Hq Hzero args host s2 eq_refl) as ([] & s3 & Hph & Hex3 & _).
  pose proof (script_vars_phases w args (JStr host) s2) as Hvars3.
  pose proof (no_release_phases w args (JStr host) s2) as Hrel3.
  rewrite Hph in Hvars3, Hrel3. simpl in Hvars3, Hrel3.
  unfold script_vars in Hvars3. simpl in Hvars3. injection Hvars3 as _ Hssid3 Hdir3 Hrc3.
  assert (Htry : main_try w args (set_v_rc 0 (__init__ None)) = (Ret tt, next_block s3)).
  { unfold main_try, main_try_body. fold sa.
    rewrite (bind_Ret _ _ _ tt sa) by reflexivity.
    rewrite (bind_Ret _ _ _ _ _ Halloc).
    rewrite (bind_Ret _ _ _ tt (set_v_lease (JStr host) ssid s1)) by reflexivity.
    simpl fst. simpl snd. rewrite Hvalid. simpl orb. cbv iota.
    rewrite (bind_Ret _ _ _ tt (set_v_lease (JStr host) ssid s1)) by reflexivity.
    rewrite (bind_Ret _ _ _ tt s3).
    - apply checkpoint_calm, Hq.
    - unfold workflow. rewrite (bind_Ret _ _ _ tt s2); [exact Hph|].
      unfold setup_artifacts_storage.
      rewrite (bind_Ret _ _ _ tt (next_block (set_v_lease (JStr host) ssid s1)))
        by (apply checkpoint_calm, Hq).
      reflexivity. }
  destruct (main_finally_run w args ssid (next_block s3)) as (s4 & Hfin & Htr & Hrc4 & Hlast).
  - exact Hssid3.
  - intros _. exact Hdir3.
  - intros i _ _. apply Hq.
  - exists (next_block s4). split; [|split].
    + replace 0 with (v_rc s4) by (rewrite Hrc4; simpl; rewrite Hrc3; exact Hrc1).
      apply (main_job_exit w args _ (next_block s3)); [|exact Hfin|exact Hlast].
      unfold try_except. rewrite Htry. reflexivity.
    + simpl trace. rewrite Htr. simpl trace. rewrite !execs_app, Hex3. simpl trace.
      rewrite !execs_app, Hex.
      unfold release_events. destruct (Args.keep args); reflexivity.
    + simpl trace. rewrite Htr. simpl trace. rewrite !releases_app, Hrel3. simpl trace.
      rewrite !releases_app, Hrel.
      unfold release_events, index_events.
      destruct (Args.keep args), (index_on w args); reflexivity.
Qed.

Lemma successful_job_runs_phases_in_order_witness :
  let w := world_of toy_loads [body_host1] [] [] true in
  let args := Args.mk "x86_64" (Some "v245") (Some "12") false None false false false
                       None (Some 8) None false "7" in
  exists s',
    main_job w args (__init__ None) = (Exc (SystemExit 0), s')
    /\ execs (trace s') = phase_commands w args "host1" ++ execs (index_events w args)
    /\ releases (trace s') = if Args.keep args then [] else [JStr "abc"].
Proof.
  intros w args.
  apply (successful_job_runs_phases_in_order w args lease_host1 "host1" [] (JStr "abc")).
  - apply world_of_quiet.
  - intros n. unfold w, world_of. simpl. destruct n; reflexivity.
  - vm_compute. reflexivity.
  - vm_compute. reflexivity.
  - vm_compute. reflexivity.
  - reflexivity.
Defined.

(** ** A failure or a cancellation that no further signal follows *)

(** X18: when the [try] block ends with an exception that an [except]
    clause handles (a failed remote command, the reboot timeout, the
    exception of the signal handler), with [ssid] bound and the artifacts
    directory created, and no signal is due afterwards unless during the
    release request, then no further phase runs: what follows in the trace
    is the log record of the failure, the release step (unless [--keep])
    and the index generation.  The process exits with 1 after a failure
    and with 0 after a caught signal. *)
Theorem failure_still_reaches_release w args e s2 ssid :
  main_try w args (set_v_rc 0 (__init__ None)) = (Exc e, s2) ->
  is_Exception e = true ->
  v_ssid s2 = Some ssid ->
  (index_on w args = true -> v_artifacts_dir s2 = Some (mkdtemp w)) ->
  calm w (n_block s2) [release_point (n_block s2)] ->
  exists s3,
    main_job w args (__init__ None)
      = (Exc (SystemExit (if is_SignalException e then 0 else 1)), s3)
    /\ trace s3 = trace s2 ++ failure_log e
                  ++ release_events w args ssid ++ index_events w args.
Proof.
  intros Hrun He Hssid Hdir Hcalm.
  assert (Hsig : forall i, (n_block s2 <= i)%nat -> i <> (n_block s2 + 3)%nat ->
                           sigs w i = None).
  { intros i Hi Hne. apply (calm_one w (n_block s2) (release_point (n_block s2)));
      [exact Hcalm | exact Hi | exact Hne]. }
  assert (Hrc : v_rc s2 = 0).
  { pose proof (v_rc_main_try w args (set_v_rc 0 (__init__ None))) as Hp.
    rewrite Hrun in Hp. exact Hp. }
  destruct (main_except_calm w e s2) as (s2' & Hexc & Htr2 & Hvars & Hn2).
  { apply Hsig; lia. }
  unfold script_vars in Hvars. injection Hvars as _ Hssid2 Hdir2 Hrc2.
  destruct (main_finally_run w args ssid s2') as (s3 & Hfin & Htr3 & Hrc3 & Hlast).
  - congruence.
  - intros Hon. rewrite Hdir2. auto.
  - intros i Hi Hne. apply Hsig; lia.
  - exists (next_block s3). split.
    + replace (if is_SignalException e then 0 else 1) with (v_rc s3).
      * apply (main_job_exit w args _ s2'); [|exact Hfin|exact Hlast].
        unfold try_except. rewrite Hrun, He. exact Hexc.
      * rewrite Hrc3, Hrc2, Hrc. reflexivity.
    + simpl trace. rewrite Htr3, Htr2, <- app_assoc. reflexivity.
Qed.

Lemma failure_still_reaches_release_witness :
  (* the first remote command exits with 1 *)
  (let w := world_of toy_loads [body_host1] [1] [] true in
   let s2 := (main_try w default_args (set_v_rc 0 (__init__ None))).2 in
   let e := Exception (unexpected_rc_message 1 0) in
   exists s3,
     main_job w default_args (__init__ None)
       = (Exc (SystemExit (if is_SignalException e then 0 else 1)), s3)
     /\ trace s3 = trace s2 ++ failure_log e
                   ++ release_events w default_args (JStr "abc")
                   ++ index_events w default_args)
  /\
  (* SIGTERM is due during the first remote command, SIGHUP during the
     release request *)
  (let w := world_of toy_loads [body_host1] []
              [None; None; Some SIGTERM; None; None; None; Some SIGHUP] true in
   let s2 := (main_try w default_args (set_v_rc 0 (__init__ None))).2 in
   let e := SignalException in
   exists s3,
     main_job w default_args (__init__ None)
       = (Exc (SystemExit (if is_SignalException e then 0 else 1)), s3)
     /\ trace s3 = trace s2 ++ failure_log e
                   ++ release_events w default_args (JStr "abc")
                   ++ index_events w default_args).
Proof.
  split.
  - intros w s2 e.
    apply (failure_still_reaches_release w default_args e s2 (JStr "abc")).
    + vm_compute. reflexivity.
    + reflexivity.
    + vm_compute. reflexivity.
    + intros _. vm_compute. reflexivity.
    + apply quiet_calm, world_of_quiet.
  - intros w s2 e.
    apply (failure_still_reaches_release w default_args e s2 (JStr "abc")).
    + vm_compute. reflexivity.
    + reflexivity.
    + vm_compute. reflexivity.
    + intros _. vm_compute. reflexivity.
    + assert (Hn : n_block s2 = 3%nat) by (vm_compute; reflexivity).
      rewrite Hn. intros i Hi Hnot. vm_compute in Hnot.
      do 7 (destruct i as [|i];
            [first [reflexivity | lia | exfalso; apply Hnot; set_solver]|]).
      destruct i; reflexivity.
Defined.
